(** * modul_12: an address book of contacts (names, phones, birthdays)

    A shallow embedding of [modul_12.py] and the properties of its data
    layer: the [Field] hierarchy ([Name], [Phone], [Birthday]), [Record]
    and [AddressBook].

    Conventions of the embedding.
    - A Python [str] is a list of Unicode code points.  What Python reads
      off the Unicode database ([str.isdigit], [str.lower], the decimal
      value of a digit, white space) is an interface, [Unicode], whose
      laws fix it on ASCII only.
    - A raised exception is a value of [exn]; a call that may raise returns
      a [result].  A method of a mutable object is a function from the
      object's state to a result paired with the state it leaves behind,
      so that what a failed call did to the object can be stated.
    - A [dict] is an association list in insertion order. *)

From Stdlib Require Import ZArith NArith String Ascii.
From stdpp Require Import base tactics option list gmap strings.

Local Open Scope Z_scope.

(** ** Python strings *)

(** A character is its code point; a string is a sequence of them. *)
Abbreviation char := N (only parsing).
Abbreviation str := (list N) (only parsing).

(** The string a literal of the source denotes. *)
Definition py (s : string) : str := N_of_ascii <$> list_ascii_of_string s.

Definition is_ascii (c : char) : bool := (c <? 128)%N.

(** ASCII lower-casing of one character: 'A'..'Z' move to 'a'..'z'. *)
Definition ascii_lower (c : char) : char :=
  if ((65 <=? c) && (c <=? 90))%N then (c + 32)%N else c.

(** '0'..'9'. *)
Definition ascii_isdigit (c : char) : bool := ((48 <=? c) && (c <=? 57))%N.

(** ASCII white space: tab, line feed, vertical tab, form feed, carriage
    return, the four separators 28..31, and space. *)
Definition ascii_isspace (c : char) : bool :=
  (((9 <=? c) && (c <=? 13)) || ((28 <=? c) && (c <=? 32)))%N.

(** The part of the Unicode database the program consults.
    - [chr_isdigit c]: [c] counts as a digit for [str.isdigit];
    - [chr_decimal c]: the value of a decimal digit (category Nd), which is
      what [\d] of a regular expression matches and what [int] reads;
    - [chr_isspace c]: white space, which [int] strips;
    - [lower s]: [s.lower()] (not a character-wise map in general). *)
Class Unicode := {
  chr_isdigit : char → bool;
  chr_decimal : char → option Z;
  chr_isspace : char → bool;
  lower : str → str;
  chr_isdigit_ascii c : is_ascii c = true → chr_isdigit c = ascii_isdigit c;
  chr_decimal_ascii c :
    is_ascii c = true →
    chr_decimal c = if ascii_isdigit c then Some (Z.of_N c - 48) else None;
  chr_decimal_range c d : chr_decimal c = Some d → 0 ≤ d ≤ 9;
  chr_isspace_ascii c : is_ascii c = true → chr_isspace c = ascii_isspace c;
  lower_ascii s : forallb is_ascii s = true → lower s = ascii_lower <$> s;
}.

(** [s.isdigit()]: every character is a digit and there is at least one. *)
Definition isdigit `{Unicode} (s : str) : bool :=
  negb (bool_decide (s = [])) && forallb chr_isdigit s.

(** [sub in s] for strings: [sub] occurs in [s] as a contiguous run. *)
Fixpoint starts_with (sub s : str) : bool :=
  match sub, s with
  | [], _ => true
  | _ :: _, [] => false
  | a :: sub', b :: s' => bool_decide (a = b) && starts_with sub' s'
  end.

Fixpoint contains (s sub : str) : bool :=
  starts_with sub s ||
  match s with
  | [] => false
  | _ :: s' => contains s' sub
  end.

(** ** Exceptions and results *)

(** The subclasses of [OSError] that [open] raises; [except
    FileNotFoundError] catches the first only. *)
Inductive os_error :=
| FileNotFoundError
| IsADirectoryError
| NotADirectoryError
| PermissionError
| OtherOSError.

Inductive exn :=
| ValueError (msg : string)
| TypeError (msg : string)
| UnpicklingError (msg : string)
| OSError (kind : os_error).

Inductive result (A : Type) :=
| Ok (a : A)
| Raise (e : exn).
Arguments Ok {A} a.
Arguments Raise {A} e.

Global Instance result_ret : MRet result := λ A a, Ok a.
Global Instance result_bind : MBind result := λ A B f m,
  match m with
  | Ok a => f a
  | Raise e => Raise e
  end.
Global Instance result_fmap : FMap result := λ A B f m,
  match m with
  | Ok a => Ok (f a)
  | Raise e => Raise e
  end.

(** The error kinds of the specification.  The program raises [ValueError]
    for all of them and tells them apart by the message only. *)
Inductive error_kind := InvalidValue | DuplicatePhone | NotFound.

Definition kind_of (e : exn) : option error_kind :=
  match e with
  | ValueError msg =>
      if bool_decide (msg = "Invalid phone number"%string) then Some InvalidValue
      else if bool_decide (msg = "Invalid date format for birthday"%string)
      then Some InvalidValue
      else if bool_decide (msg = "Phone number already exists in the record"%string)
      then Some DuplicatePhone
      else if bool_decide (msg = "New phone number already exists in the record"%string)
      then Some DuplicatePhone
      else if bool_decide (msg = "Phone number not found in record"%string)
      then Some NotFound
      else None
  | _ => None
  end.

(** A method of an object with state [S]: the result of the call and the
    state of the object after it, also when the call raised. *)
Definition method (S A : Type) : Type := S → result A * S.

Global Instance method_ret {S} : MRet (method S) := λ A a self, (Ok a, self).
Global Instance method_bind {S} : MBind (method S) := λ A B f m self,
  match m self with
  | (Ok a, self') => f a self'
  | (Raise e, self') => (Raise e, self')
  end.

Definition get {S} : method S S := λ self, (Ok self, self).
Definition put {S} (s : S) : method S () := λ _, (Ok (), s).
Definition raise {S A} (e : exn) : method S A := λ self, (Raise e, self).
(** A call that does not touch [self]. *)
Definition call {S A} (r : result A) : method S A := λ self, (r, self).

(** ** The [datetime] module

    The calendar arithmetic of CPython's [datetime]: proleptic Gregorian
    dates, years 1 to 9999.  The messages of its exceptions follow
    CPython's C implementation, without the offending values some versions
    append; what matters below is which exception is raised. *)

Module datetime.

Definition MINYEAR : Z := 1.
Definition MAXYEAR : Z := 9999.

Definition _is_leap (year : Z) : bool :=
  bool_decide (year `mod` 4 = 0) &&
  (negb (bool_decide (year `mod` 100 = 0)) || bool_decide (year `mod` 400 = 0)).

Definition _DAYS_IN_MONTH : list Z :=
  [-1; 31; 28; 31; 30; 31; 30; 31; 31; 30; 31; 30; 31].

Definition _DAYS_BEFORE_MONTH : list Z :=
  [-1; 0; 31; 59; 90; 120; 151; 181; 212; 243; 273; 304; 334].

(** Number of days before January 1st of [year]. *)
Definition _days_before_year (year : Z) : Z :=
  let y := year - 1 in
  y * 365 + y `div` 4 - y `div` 100 + y `div` 400.

(** Number of days in [month] of [year]; [month] is in 1..12. *)
Definition _days_in_month (year month : Z) : Z :=
  if bool_decide (month = 2) && _is_leap year then 29
  else default 0 (_DAYS_IN_MONTH !! Z.to_nat month).

(** Number of days in [year] before the first day of [month]. *)
Definition _days_before_month (year month : Z) : Z :=
  default 0 (_DAYS_BEFORE_MONTH !! Z.to_nat month) +
  (if bool_decide (2 < month) && _is_leap year then 1 else 0).

(** January 1st of year 1 is day 1. *)
Definition _ymd2ord (year month day : Z) : Z :=
  _days_before_year year + _days_before_month year month + day.

Record date := Build_date { year : Z; month : Z; day : Z }.

Definition _check_date_fields (year month day : Z) : result () :=
  if negb (bool_decide (MINYEAR ≤ year ≤ MAXYEAR))
  then Raise (ValueError "year is out of range")
  else if negb (bool_decide (1 ≤ month ≤ 12))
  then Raise (ValueError "month must be in 1..12")
  else if negb (bool_decide (1 ≤ day ≤ _days_in_month year month))
  then Raise (ValueError "day is out of range for month")
  else Ok ().

Definition _check_time_fields (hour minute second microsecond : Z) : result () :=
  if negb (bool_decide (0 ≤ hour ≤ 23))
  then Raise (ValueError "hour must be in 0..23")
  else if negb (bool_decide (0 ≤ minute ≤ 59))
  then Raise (ValueError "minute must be in 0..59")
  else if negb (bool_decide (0 ≤ second ≤ 59))
  then Raise (ValueError "second must be in 0..59")
  else if negb (bool_decide (0 ≤ microsecond ≤ 999999))
  then Raise (ValueError "microsecond must be in 0..999999")
  else Ok ().

(** [date(year, month, day)]. *)
Definition new_date (year month day : Z) : result date :=
  _check_date_fields year month day;;
  Ok {| year := year; month := month; day := day |}.

Definition valid_date (d : date) : bool :=
  bool_decide (MINYEAR ≤ year d ≤ MAXYEAR) && bool_decide (1 ≤ month d ≤ 12) &&
  bool_decide (1 ≤ day d ≤ _days_in_month (year d) (month d)).

Definition toordinal (d : date) : Z := _ymd2ord (year d) (month d) (day d).

(** [a > b] on dates: the order of the triples (year, month, day). *)
Definition date_gt (a b : date) : bool :=
  bool_decide (year b < year a) ||
  (bool_decide (year a = year b) &&
   (bool_decide (month b < month a) ||
    (bool_decide (month a = month b) && bool_decide (day b < day a)))).

(** [(a - b).days]. *)
Definition days_between (a b : date) : Z := toordinal a - toordinal b.

Record t := Build {
  dt_date : date;
  hour : Z; minute : Z; second : Z; microsecond : Z
}.

(** [datetime(year, month, day, hour=0, minute=0, second=0, microsecond=0)]
    on integers. *)
Definition new (year month day hour minute second microsecond : Z) : result t :=
  _check_date_fields year month day;;
  _check_time_fields hour minute second microsecond;;
  Ok {| dt_date := {| year := year; month := month; day := day |};
        hour := hour; minute := minute; second := second;
        microsecond := microsecond |}.

(** [datetime(year, *args)] where [args] are integers: the positional
    parameters after [year] are month, day, hour, minute, second and
    microsecond; month and day are required, a seventh argument would be
    [tzinfo], which an integer is not, and there is no eighth. *)
Definition new_star (year : Z) (args : list Z) : result t :=
  match args with
  | [] => Raise (TypeError "function missing required argument 'month' (pos 2)")
  | [_] => Raise (TypeError "function missing required argument 'day' (pos 3)")
  | [mo; d] => new year mo d 0 0 0 0
  | [mo; d; h] => new year mo d h 0 0 0
  | [mo; d; h; mi] => new year mo d h mi 0 0
  | [mo; d; h; mi; s] => new year mo d h mi s 0
  | [mo; d; h; mi; s; us] => new year mo d h mi s us
  | [mo; d; h; mi; s; us; _] =>
      (* the eighth argument is checked after the date and the time *)
      new year mo d h mi s us;;
      Raise (TypeError "tzinfo argument must be None or of a tzinfo subclass, not type 'int'")
  | _ => Raise (TypeError "function takes at most 8 positional arguments")
  end.

(** [dt.date()]. *)
Definition to_date (dt : t) : date := dt_date dt.

End datetime.

(** ** [int], [str.split] and [datetime.strptime] *)

Section text.
Context `{Unicode}.

(** The white space [int] skips around a literal: of the ASCII characters
    tab to carriage return and space only (C's [isspace]; not the
    separators 28..31, which [str.isspace] counts), of the other
    characters those that are Unicode white space. *)
Definition int_isspace (c : char) : bool :=
  if is_ascii c then (((9 <=? c) && (c <=? 13)) || (c =? 32))%N else chr_isspace c.

(** What [int] skips: white space off both ends. *)
Fixpoint lstrip (s : str) : str :=
  match s with
  | c :: s' => if int_isspace c then lstrip s' else s
  | [] => []
  end.

Definition strip (s : str) : str := reverse (lstrip (reverse (lstrip s))).

(** The digits of a decimal literal after its first one, which brought the
    value to [acc]: digits, each possibly preceded by one underscore. *)
Fixpoint int_digits (acc : Z) (s : str) : option Z :=
  match s with
  | [] => Some acc
  | c :: s' =>
      if bool_decide (c = 95%N) then
        match s' with
        | d :: s'' => v ← chr_decimal d; int_digits (10 * acc + v) s''
        | [] => None
        end
      else v ← chr_decimal c; int_digits (10 * acc + v) s'
  end.

Definition int_unsigned (s : str) : option Z :=
  match s with
  | c :: s' => v ← chr_decimal c; int_digits v s'
  | [] => None
  end.

(** [int(s)] for a string [s], base 10: white space around, an optional
    sign, decimal digits of any script, single underscores between digits. *)
Definition int (s : str) : result Z :=
  let parsed :=
    match strip s with
    | c :: s' =>
        if bool_decide (c = 43%N) then int_unsigned s'
        else if bool_decide (c = 45%N) then Z.opp <$> int_unsigned s'
        else int_unsigned (c :: s')
    | [] => None
    end in
  match parsed with
  | Some z => Ok z
  | None => Raise (ValueError "invalid literal for int() with base 10")
  end.

(** [s.split(sep)] for a separator of one character. *)
Fixpoint split (sep : char) (s : str) : list str :=
  match s with
  | [] => [[]]
  | c :: s' =>
      if bool_decide (c = sep) then [] :: split sep s'
      else match split sep s' with
           | p :: ps => (c :: p) :: ps
           | [] => [[c]]
           end
  end.

(** [map(f, xs)] consumed to its end, for an [f] that may raise. *)
Fixpoint map_result {A B} (f : A → result B) (xs : list A) : result (list B) :=
  match xs with
  | [] => Ok []
  | x :: xs' => y ← f x; ys ← map_result f xs'; Ok (y :: ys)
  end.

(** A regular expression as a backtracking matcher: the ways it matches a
    prefix of the text, in the order the engine tries them, each with the
    text matched and the text left. *)
Definition matcher : Type := str → list (str * str).

Definition re_char (P : char → bool) : matcher := λ s,
  match s with
  | c :: s' => if P c then [([c], s')] else []
  | [] => []
  end.

Definition re_seq (a b : matcher) : matcher := λ s,
  '(x, s1) ← a s; '(y, s2) ← b s1; [(x ++ y, s2)].

Definition re_alt (a b : matcher) : matcher := λ s, a s ++ b s.

(** [\d]: a decimal digit of any script. *)
Definition re_d : matcher := re_char (λ c, bool_decide (is_Some (chr_decimal c))).
(** [[lo-hi]] for ASCII digits [lo] and [hi]. *)
Definition re_range (lo hi : N) : matcher :=
  re_char (λ c, (48 + lo <=? c)%N && (c <=? 48 + hi)%N).
Definition re_lit (a : N) : matcher := re_char (λ c, bool_decide (c = a)).

(** The groups of [_strptime]'s regular expressions for the directives [%Y],
    [%m] and [%d]. *)
Definition re_Y : matcher := re_seq re_d (re_seq re_d (re_seq re_d re_d)).
Definition re_m : matcher :=
  re_alt (re_seq (re_range 1 1) (re_range 0 2))
    (re_alt (re_seq (re_range 0 0) (re_range 1 9)) (re_range 1 9)).
Definition re_dd : matcher :=
  re_alt (re_seq (re_range 3 3) (re_range 0 1))
    (re_alt (re_seq (re_range 1 2) re_d)
       (re_alt (re_seq (re_range 0 0) (re_range 1 9))
          (re_alt (re_range 1 9) (re_seq (re_lit 32) (re_range 1 9))))).

(** The compiled format ['%Y-%m-%d']: the three groups and the text left. *)
Definition format_regex (s : str) : list (str * str * str * str) :=
  '(Y, s1) ← re_Y s;
  '(_, s2) ← re_lit 45 s1;
  '(m, s3) ← re_m s2;
  '(_, s4) ← re_lit 45 s3;
  '(d, s5) ← re_dd s4;
  [(Y, m, d, s5)].

(** [datetime.strptime(data_string, '%Y-%m-%d')]: the first match of the
    format at the start of the text, which must be all of the text; the
    groups read by [int]; the date they name must exist. *)
Definition strptime (data_string : str) : result datetime.t :=
  match head (format_regex data_string) with
  | None => Raise (ValueError "time data does not match format")
  | Some (Y, m, d, rest) =>
      if negb (bool_decide (rest = []))
      then Raise (ValueError "unconverted data remains")
      else
        year ← int Y; month ← int m; day ← int d;
        datetime.new year month day 0 0 0 0
  end.

End text.

(** ** The [Field] hierarchy *)

(** [Name]: a [Field] whose setter stores any value. *)
Module Name.
Record t := Build { _value : str }.
Definition value (self : t) : str := _value self.
Definition __init__ (value : str) : t := {| _value := value |}.
Definition __str__ (self : t) : str := value self.
End Name.

Module Phone.
Record t := Build { _value : str }.
Global Instance t_eq_dec : EqDecision t.
Proof. solve_decision. Defined.

Definition value (self : t) : str := _value self.

Section with_unicode.
Context `{Unicode}.

(** Lines 35-37. *)
Definition is_valid_phone (value : str) : bool :=
  bool_decide (length value = 10%nat) && isdigit value.

(** Lines 29-33.  The setter of [value]: what [self.value = new_value] makes
    of a phone.  It does not read the old state. *)
Definition set_value (new_value : str) : result t :=
  if negb (is_valid_phone new_value)
  then Raise (ValueError "Invalid phone number")
  else Ok {| _value := new_value |}.

(** [Phone(value)]: [Field.__init__] stores [None], then assigns through
    the setter above. *)
Definition __init__ (value : str) : result t := set_value value.
End with_unicode.

Definition __str__ (self : t) : str := value self.
End Phone.

Module Birthday.
Record t := Build { _value : str }.
Definition value (self : t) : str := _value self.

Section with_unicode.
Context `{Unicode}.

(** Lines 43-49.  The setter: a [ValueError] of [strptime] is caught and
    raised anew under the class's own message; nothing else is caught. *)
Definition set_value (new_value : str) : result t :=
  match strptime new_value with
  | Ok _ => Ok {| _value := new_value |}
  | Raise (ValueError _) => Raise (ValueError "Invalid date format for birthday")
  | Raise e => Raise e
  end.

Definition __init__ (value : str) : result t := set_value value.
End with_unicode.

Definition __str__ (self : t) : str := value self.
End Birthday.

(** ** [Record] *)

(** [for x in xs: body(x)] inside a method: the first exception ends it. *)
Fixpoint for_each {S A} (body : A → method S ()) (xs : list A) : method S () :=
  match xs with
  | [] => mret ()
  | x :: xs' => body x;; for_each body xs'
  end.

(** [sep.join(l)]. *)
Fixpoint join (sep : str) (l : list str) : str :=
  match l with
  | [] => []
  | [x] => x
  | x :: l' => x ++ sep ++ join sep l'
  end.

Module Record.

(** [phones] holds the [Phone] objects in list order.  [add_phone] is the
    only place that puts an object in the list and it makes a new one each
    time, so no object stands at two positions and a reference to one of
    them is its position. *)
Record t := Build {
  name : Name.t;
  phones : list Phone.t;
  birthday : option Birthday.t
}.

Definition set_phones (l : list Phone.t) (self : t) : t :=
  {| name := name self; phones := l; birthday := birthday self |}.

Section with_unicode.
Context `{Unicode}.

(** Lines 64-69. *)
Definition add_phone (phone_number : str) : method t () :=
  phone ← call (Phone.__init__ phone_number);
  self ← get;
  if negb (bool_decide (Phone.value phone ∈ Phone.value <$> phones self))
  then put (set_phones (phones self ++ [phone]) self)
  else raise (ValueError "Phone number already exists in the record").

(** Lines 71-75.  The loop of [find_phone]: the first phone of the list
    whose value is [phone_number], with its position. *)
Definition find_phone_ref (phone_number : str) (self : t) : option (nat * Phone.t) :=
  list_find (λ phone, Phone.value phone = phone_number) (phones self).

Definition find_phone (phone_number : str) (self : t) : option Phone.t :=
  snd <$> find_phone_ref phone_number self.

(** Lines 77-86. *)
Definition edit_phone (old_phone new_phone : str) : method t () :=
  self ← get;
  match find_phone_ref old_phone self with
  | Some (i, _) =>
      new_phone_obj ← call (Phone.__init__ new_phone);
      if negb (bool_decide (Phone.value new_phone_obj ∈ Phone.value <$> phones self))
      then
        phone_obj ← call (Phone.set_value (Phone.value new_phone_obj));
        put (set_phones (<[i := phone_obj]> (phones self)) self)
      else raise (ValueError "New phone number already exists in the record")
  | None => raise (ValueError "Phone number not found in record")
  end.

(** Lines 88-93.  The object to remove is the one [find_phone] returned, at
    its position. *)
Definition remove_phone (phone : str) : method t () :=
  self ← get;
  match find_phone_ref phone self with
  | Some (i, _) => put (set_phones (delete i (phones self)) self)
  | None => raise (ValueError "Phone number not found in record")
  end.

(** Lines 52-58.  [Record(name, phone_numbers=None, birthday=None)].  [None]
    and the empty string (or list) are the false values of the two tests. *)
Definition __init__ (name : str) (phone_numbers : option (list str))
    (birthday : option str) : result t :=
  b ← match birthday with
      | Some v => if bool_decide (v = []) then Ok None else Some <$> Birthday.__init__ v
      | None => Ok None
      end;
  let self := {| name := Name.__init__ name; phones := []; birthday := b |} in
  match phone_numbers with
  | Some l =>
      if bool_decide (l = []) then Ok self
      else match for_each add_phone l self with
           | (Ok _, self') => Ok self'
           | (Raise e, _) => Raise e
           end
  | None => Ok self
  end.

(** Lines 95-102.  [days_to_birthday], with the date [datetime.now().date()]
    returns as [today].  It does not change the record. *)
Definition days_to_birthday (today : datetime.date) (self : t) : result (option Z) :=
  match birthday self with
  | Some b =>
      args ← map_result int (split 45 (Birthday.value b));
      dt ← datetime.new_star (datetime.year today) args;
      let next_birthday := datetime.to_date dt in
      next_birthday ←
        (if datetime.date_gt today next_birthday then
           args ← map_result int (split 45 (Birthday.value b));
           dt ← datetime.new_star (datetime.year today + 1) args;
           Ok (datetime.to_date dt)
         else Ok next_birthday);
      Ok (Some (datetime.days_between next_birthday today))
  | None => Ok None
  end.

End with_unicode.

(** Lines 61-62.  The formatted string: name, the phones joined by "; ",
    and the birthday as it displays, or "None". *)
Definition __str__ (self : t) : str :=
  py "Contact name: " ++ Name.value (name self) ++
  py ", phones: " ++ join (py "; ") (Phone.__str__ <$> phones self) ++
  py ", birthday: " ++
  match birthday self with
  | Some b => Birthday.__str__ b
  | None => py "None"
  end.

End Record.

(** ** Dictionaries, ranges and slices *)

(** A [dict] with string keys: the items in insertion order, no key twice. *)
Definition dict (V : Type) : Type := list (str * V).

Definition dict_values {V} (d : dict V) : list V := snd <$> d.
Definition dict_keys {V} (d : dict V) : list (list N) := fst <$> d.

Definition dict_contains {V} (k : str) (d : dict V) : bool :=
  bool_decide (k ∈ dict_keys d).

(** [d[k] = v]: a key that is present keeps its place, a new one goes last. *)
Fixpoint dict_setitem {V} (k : str) (v : V) (d : dict V) : dict V :=
  match d with
  | [] => [(k, v)]
  | (k', v') :: d' =>
      if bool_decide (k' = k) then (k, v) :: d' else (k', v') :: dict_setitem k v d'
  end.

(** [del d[k]] for a key that is present. *)
Definition dict_delitem {V} (k : str) (d : dict V) : dict V :=
  filter (λ kv, kv.1 ≠ k) d.

(** [range(start, stop, step)] as the list of its elements. *)
Definition range (start stop step : Z) : result (list Z) :=
  if bool_decide (step = 0) then Raise (ValueError "range() arg 3 must not be zero")
  else
    let len :=
      if bool_decide (0 < step)
      then (if bool_decide (start < stop) then 1 + (stop - 1 - start) `div` step else 0)
      else (if bool_decide (stop < start) then 1 + (start - 1 - stop) `div` (- step) else 0) in
    Ok ((λ i : nat, start + Z.of_nat i * step) <$> seq 0 (Z.to_nat len)).

(** [l[i:j]]: a negative bound counts from the end, and both are clipped
    to the list. *)
Definition slice {A} (l : list A) (i j : Z) : list A :=
  let n := Z.of_nat (length l) in
  let clip k := if bool_decide (k < 0) then Z.max (k + n) 0 else Z.min k n in
  take (Z.to_nat (clip j - clip i)) (drop (Z.to_nat (clip i)) l).

(** ** [AddressBook] *)

Abbreviation path := (list N) (only parsing).
Abbreviation bytes := (list Byte.byte) (only parsing).

(** *** Files

    [open(path, mode)] the way the program calls it: with mode 'rb' in
    [load] and with mode 'wb' in [dump]. *)
Inductive mode := rb | wb.

(** What the operating system makes of a path opened in a mode: the regular
    file the path names there, which may not exist yet, or the exception
    that answers the call (no such file or directory for a path in a
    directory that does not exist, is a directory, permission denied, a
    text the file system encoding cannot write).  Two paths may name one
    file ("book.pkl" and "./book.pkl", a link), and a path may be open to
    one mode and closed to the other (a file that may only be read). *)
Inductive node :=
| regular (id : N)
| refused (e : exn).

(** The file system: how paths resolve, which the program never changes
    (it makes no directory and no link), and the bytes of every regular
    file that exists. *)
Record filesystem := {
  node_of : mode → path → node;
  content : gmap N (list Byte.byte)
}.

(** The file [open(path, mode)] opens.  A NUL character in the path and the
    empty path are refused whatever the operating system holds. *)
Definition resolve (fs : filesystem) (m : mode) (p : path) : result N :=
  if bool_decide (0%N ∈ p) then Raise (ValueError "embedded null byte")
  else if bool_decide (p = []) then Raise (OSError FileNotFoundError)
  else match node_of fs m p with
       | regular id => Ok id
       | refused e => Raise e
       end.

(** [with open(path, 'rb') as file]: the bytes [file] holds.  A file that
    does not exist cannot be opened for reading. *)
Definition read_file (p : path) (fs : filesystem) : result bytes :=
  id ← resolve fs rb p;
  match content fs !! id with
  | Some b => Ok b
  | None => Raise (OSError FileNotFoundError)
  end.

(** [with open(path, 'wb') as file: file.write(b)]: the file is created or
    emptied, then written.  When [open] raises nothing is written. *)
Definition write_file (p : path) (b : bytes) : method filesystem () := λ fs,
  match resolve fs wb p with
  | Ok id => (Ok (), {| node_of := node_of fs; content := <[id := b]> (content fs) |})
  | Raise e => (Raise e, fs)
  end.

(** [pickle] for the pair the program stores, as the contract the program
    relies on: what [dumps] writes, [loads] reads back as an equal value.
    [loads] of other bytes may fail. *)
Class Pickle (A : Type) := {
  pickle_dumps : A → bytes;
  pickle_loads : bytes → option A;
  pickle_loads_dumps a : pickle_loads (pickle_dumps a) = Some a;
}.

Module AddressBook.

Record t := Build {
  data : dict Record.t;
  file : path;
  record_id : Z
}.

(** Lines 111-113. *)
Definition add_record (record : Record.t) (self : t) : t :=
  {| data := dict_setitem (Name.value (Record.name record)) record (data self);
     file := file self;
     record_id := record_id self + 1 |}.

(** Lines 125-127. *)
Definition delete (name : str) (self : t) : t :=
  if dict_contains name (data self)
  then {| data := dict_delitem name (data self); file := file self;
          record_id := record_id self |}
  else self.

Section with_unicode.
Context `{Unicode}.

(** Lines 115-123.  [find]: the two tests of the loop body, each appending
    the record. *)
Definition find (query : str) (self : t) : list Record.t :=
  foldl
    (λ results record,
       let results :=
         if contains (lower (Name.value (Record.name record))) (lower query)
         then results ++ [record] else results in
       foldl
         (λ results phone,
            if contains (Phone.value phone) query
            then results ++ [record] else results)
         results (Record.phones record))
    [] (dict_values (data self)).

End with_unicode.

(** Lines 129-132.  [iterator(batch_size)]: the batches the generator yields
    when it is run to its end, or the exception that ends it. *)
Definition iterator (batch_size : Z) (self : t) : result (list (list Record.t)) :=
  let records := dict_values (data self) in
  indices ← range 0 (Z.of_nat (length records)) batch_size;
  Ok ((λ i, slice records i (i + batch_size)) <$> (indices : list Z)).

Section with_pickle.
Context `{Pickle (Z * dict Record.t)}.

(** Lines 134-136.  [dump]: a method of the file system, which it changes;
    an exception of [open] is not caught. *)
Definition dump (self : t) : method filesystem () :=
  write_file (file self) (pickle_dumps (record_id self, data self)).

(** Lines 138-143.  Of the exceptions of [open] and [pickle.load] only
    [FileNotFoundError] is caught: the book is then left as it is. *)
Definition load (fs : filesystem) : method t () :=
  self ← get;
  match read_file (file self) fs with
  | Ok content =>
      match pickle_loads content with
      | Some (record_id, data) =>
          put {| data := data; file := file self; record_id := record_id |}
      | None => raise (UnpicklingError "invalid load key")
      end
  | Raise (OSError FileNotFoundError) => mret ()
  | Raise e => raise e
  end.

(** Lines 105-109.  [AddressBook(file)]. *)
Definition __init__ (file : path) (fs : filesystem) : result t :=
  let self := {| data := []; file := file; record_id := 1 |} in
  match load fs self with
  | (Ok _, self') => Ok self'
  | (Raise e, _) => Raise e
  end.

End with_pickle.
End AddressBook.

(** ** [Controller]

    The two commands of the command loop.  What a command prints is the
    list of its lines; what it returns tells the loop whether to stop. *)

Module Controller.

Record t := Build { address_book : AddressBook.t }.

(** Lines 150-157.  The command returns nothing, so the loop goes on. *)
Definition do_search `{Unicode} (line : str) (self : t) : list (list N) :=
  let results := AddressBook.find line (address_book self) in
  match results with
  | _ :: _ => Record.__str__ <$> results
  | [] => [py "No matching records found."]
  end.


End Controller.

(** ** Instances of the interfaces

    A Unicode database that knows ASCII only (no other character is a
    digit or white space, or has another case), and a serializer that
    meets the contract of [Pickle] (its format is not pickle's).  They show
    the interfaces can be met and let the definitions run on examples. *)

Definition ascii_decimal (c : char) : option Z :=
  if ascii_isdigit c then Some (Z.of_N c - 48) else None.

Lemma ascii_decimal_range c d : ascii_decimal c = Some d → 0 ≤ d ≤ 9.
Proof.
  unfold ascii_decimal, ascii_isdigit.
  destruct (48 <=? c)%N eqn:Hlo, (c <=? 57)%N eqn:Hhi; simpl; intros [= <-].
  apply N.leb_le in Hlo, Hhi. lia.
Qed.

Definition ascii_unicode : Unicode := {|
  chr_isdigit := ascii_isdigit;
  chr_decimal := ascii_decimal;
  chr_isspace := ascii_isspace;
  lower := fmap ascii_lower;
  chr_isdigit_ascii := λ _ _, eq_refl;
  chr_decimal_ascii := λ _ _, eq_refl;
  chr_decimal_range := ascii_decimal_range;
  chr_isspace_ascii := λ _ _, eq_refl;
  lower_ascii := λ _ _, eq_refl;
|}.

Global Instance Name_eq_dec : EqDecision Name.t.
Proof. solve_decision. Defined.
Global Instance Birthday_eq_dec : EqDecision Birthday.t.
Proof. solve_decision. Defined.
Global Instance Record_eq_dec : EqDecision Record.t.
Proof. solve_decision. Defined.

Global Instance Name_countable : Countable Name.t :=
  inj_countable' Name._value Name.Build (λ x, match x with Name.Build _ => eq_refl end).
Global Instance Phone_countable : Countable Phone.t :=
  inj_countable' Phone._value Phone.Build (λ x, match x with Phone.Build _ => eq_refl end).
Global Instance Birthday_countable : Countable Birthday.t :=
  inj_countable' Birthday._value Birthday.Build
    (λ x, match x with Birthday.Build _ => eq_refl end).
Global Instance Record_countable : Countable Record.t :=
  inj_countable'
    (λ r, (Record.name r, Record.phones r, Record.birthday r))
    (λ '(n, p, b), Record.Build n p b)
    (λ x, match x with Record.Build _ _ _ => eq_refl end).

Fixpoint bits_of_positive (p : positive) : bytes :=
  match p with
  | xH => []
  | xO p' => Byte.x00 :: bits_of_positive p'
  | xI p' => Byte.x01 :: bits_of_positive p'
  end.

Fixpoint positive_of_bits (b : bytes) : option positive :=
  match b with
  | [] => Some xH
  | Byte.x00 :: b' => xO <$> positive_of_bits b'
  | Byte.x01 :: b' => xI <$> positive_of_bits b'
  | _ => None
  end.

Lemma positive_of_bits_of_positive p : positive_of_bits (bits_of_positive p) = Some p.
Proof. induction p as [p IH|p IH|]; simpl; [by rewrite IH..|done]. Qed.

Lemma countable_loads_dumps `{Countable A} (a : A) :
  (positive_of_bits (bits_of_positive (encode a)) ≫= decode) = Some a.
Proof. rewrite positive_of_bits_of_positive. simpl. apply decode_encode. Qed.

Definition countable_pickle `{Countable A} : Pickle A := {|
  pickle_dumps a := bits_of_positive (encode a);
  pickle_loads b := positive_of_bits b ≫= decode;
  pickle_loads_dumps := countable_loads_dumps;
|}.

(** * The vocabulary of the properties *)

(** The state a method leaves and the result it returns. *)
Definition state_after {S A} (m : method S A) (self : S) : S := (m self).2.
Definition result_of {S A} (m : method S A) (self : S) : result A := (m self).1.

(** Unfolds the plumbing of [method] and [result]. *)
Ltac unfold_method :=
  unfold state_after, result_of, mbind, method_bind, result_bind, mret,
    method_ret, result_ret, get, put, raise, call in *; simpl in *.

(** [sub] occurs in [s]: the words of the specification for [in]. *)
Definition substring (sub s : str) : Prop := ∃ pre post, s = pre ++ sub ++ post.

(** The number [m] of batches of size [b] in a list of length [n]: the
    least with [n ≤ m * b]. *)
Definition batch_count (m b n : nat) : Prop := (m * b < n + b ∧ n ≤ m * b)%nat.

(** Text of ASCII characters only. *)
Abbreviation ascii_text s := (Forall (λ c, is_ascii c = true) s).

(** Every match of the matcher [a] splits the text into the part matched,
    made of characters in [Q], and the rest. *)
Definition emits (Q : char → Prop) (a : str → list (list N * list N)) : Prop :=
  ∀ s x r, (x, r) ∈ a s → s = x ++ r ∧ Forall Q x.

Section vocabulary.
Context `{Unicode}.

(** The words of the specification: exactly 10 numeric characters. *)
Definition ten_numeric (s : str) : Prop :=
  length s = 10%nat ∧ Forall (λ c, chr_isdigit c = true) s.

(** The values of the phones of a record, in list order. *)
Definition phone_values (r : Record.t) : list (list N) :=
  Phone.value <$> Record.phones r.

(** The invariant of the specification: no two phones of equal value. *)
Definition phones_unique (r : Record.t) : Prop := NoDup (phone_values r).

(** Every phone of the record holds a valid number. *)
Definition phones_valid (r : Record.t) : Prop :=
  Forall (λ v, Phone.is_valid_phone v = true) (phone_values r).

(** The records a program gets from the constructor and the three methods
    that change the phone list. *)
Inductive reachable : Record.t → Prop :=
| reach_init name phone_numbers birthday r :
    Record.__init__ name phone_numbers birthday = Ok r → reachable r
| reach_add_phone n r :
    reachable r → reachable (state_after (Record.add_phone n) r)
| reach_edit_phone old new r :
    reachable r → reachable (state_after (Record.edit_phone old new) r)
| reach_remove_phone n r :
    reachable r → reachable (state_after (Record.remove_phone n) r).

(** The name of [r] contains [query], case ignored. *)
Definition name_matches (query : str) (r : Record.t) : Prop :=
  substring (lower query) (lower (Name.value (Record.name r))).

(** The phone [p] contains [query]. *)
Definition phone_matches (query : str) (p : Phone.t) : Prop :=
  substring query (Phone.value p).

(** What the specification asks of [days_to_birthday], in its words: the
    days from today to the next occurrence of the birthday's month and
    day, this year if not yet passed, else next year.  (It leaves open what
    a 29th of February is in a year that has none; here the date is then
    refused as [datetime] refuses it.) *)
Definition days_to_birthday_spec (today : datetime.date) (r : Record.t)
    : result (option Z) :=
  match Record.birthday r with
  | Some b =>
      born ← datetime.to_date <$> strptime (Birthday.value b);
      this_year ← datetime.new_date (datetime.year today)
                    (datetime.month born) (datetime.day born);
      next ← (if datetime.date_gt today this_year
              then datetime.new_date (datetime.year today + 1)
                     (datetime.month born) (datetime.day born)
              else Ok this_year);
      Ok (Some (datetime.days_between next today))
  | None => Ok None
  end.

End vocabulary.

(** ** Further vocabulary *)

(** [d.get(k)]: the value stored under the key [k], if any. *)
Fixpoint dict_get {V} (k : str) (d : dict V) : option V :=
  match d with
  | [] => None
  | (k', v) :: d' => if bool_decide (k' = k) then Some v else dict_get k d'
  end.

(** The character of a decimal digit; a number below 100 in two digits and
    one below 10000 in four; the text YYYY-MM-DD of a date, every field
    padded with zeros, as [date.isoformat()] writes it. *)
Definition digit_char (n : Z) : N := (48 + Z.to_N n)%N.

Definition two_digits (n : Z) : list N :=
  [digit_char (n `div` 10); digit_char (n `mod` 10)].

Definition four_digits (n : Z) : list N :=
  two_digits (n `div` 100) ++ two_digits (n `mod` 100).

Definition isoformat (d : datetime.date) : list N :=
  four_digits (datetime.year d) ++ 45%N :: two_digits (datetime.month d) ++
  45%N :: two_digits (datetime.day d).

(** A change made to the record stored under the key [k]: the book holds
    the record object itself, so a method called on the object changes the
    record in the book. *)
Definition dict_alter {V} (f : V → V) (k : list N) (d : dict V) : dict V :=
  (λ kv, if bool_decide (kv.1 = k) then (kv.1, f kv.2) else kv) <$> d.

Definition book_alter (f : Record.t → Record.t) (k : list N) (ab : AddressBook.t)
    : AddressBook.t :=
  AddressBook.Build (dict_alter f k (AddressBook.data ab)) (AddressBook.file ab)
    (AddressBook.record_id ab).

(** The books a program gets from an empty one by adding and deleting
    records and by changing, through methods that leave the name alone,
    the records it holds. *)
Inductive book_reachable : AddressBook.t → Prop :=
| book_empty file :
    book_reachable (AddressBook.Build [] file 1)
| book_add_record record ab :
    book_reachable ab → book_reachable (AddressBook.add_record record ab)
| book_delete name ab :
    book_reachable ab → book_reachable (AddressBook.delete name ab)
| book_record_changed f k ab :
    (∀ r, Record.name (f r) = Record.name r) →
    book_reachable ab → book_reachable (book_alter f k ab).

(** ** The contacts of the examples *)

Definition john_doe : Record.t :=
  Record.Build (Name.Build (py "John Doe")) [Phone.Build (py "1234567890")]
    (Some (Birthday.Build (py "1990-05-15"))).

(** A contact with two phones. *)
Definition jane_smith : Record.t :=
  Record.Build (Name.Build (py "Jane Smith"))
    [Phone.Build (py "5555555555"); Phone.Build (py "5554444444")] None.

Definition empty_book : AddressBook.t :=
  AddressBook.Build [] (py "address_book.pkl") 1.

(** A working directory: the book's file under two spellings of its path,
    a second file, the directory itself, a file that may only be read; any
    other path lies in a directory that does not exist.  No file exists
    yet. *)
Definition example_fs : filesystem :=
  {| node_of := λ m p,
       if bool_decide (p = py "address_book.pkl" ∨ p = py "./address_book.pkl")
       then regular 1
       else if bool_decide (p = py "other.pkl") then regular 2
       else if bool_decide (p = py ".") then refused (OSError IsADirectoryError)
       else if bool_decide (p = py "read_only.pkl")
       then match m with rb => regular 3 | wb => refused (OSError PermissionError) end
       else refused (OSError FileNotFoundError);
     content := ∅ |}.

(** Five contacts named "a" to "e". *)
Definition five_contacts : AddressBook.t :=
  foldl (λ ab n, AddressBook.add_record (Record.Build (Name.Build n) [] None) ab)
    empty_book [py "a"; py "b"; py "c"; py "d"; py "e"].

(** ** The model at work

    Values the definitions compute with the ASCII-only database, to be
    compared with what Python prints. *)

Section examples.
Local Existing Instance ascii_unicode.

Example Phone_ten_digits :
  Phone.__init__ (py "1234567890") = Ok (Phone.Build (py "1234567890")).
Proof. reflexivity. Qed.

Example Phone_nine_digits :
  Phone.__init__ (py "123456789") = Raise (ValueError "Invalid phone number").
Proof. reflexivity. Qed.

Example Phone_with_letter :
  Phone.__init__ (py "12345678a0") = Raise (ValueError "Invalid phone number").
Proof. reflexivity. Qed.

Example Birthday_accepts :
  Birthday.__init__ (py "1990-05-15") = Ok (Birthday.Build (py "1990-05-15")) ∧
  Birthday.__init__ (py "1990-5-15") = Ok (Birthday.Build (py "1990-5-15")) ∧
  Birthday.__init__ (py "1992-02-29") = Ok (Birthday.Build (py "1992-02-29")).
Proof. by vm_compute. Qed.

Example Birthday_rejects :
  Forall (λ s, Birthday.__init__ s = Raise (ValueError "Invalid date format for birthday"))
    [py "15.05.1990"; py "1990-13-15"; py "1990-05-35"; py "1990-02-29";
     py "0000-05-15"; py "90-05-15"; py "1990-05-15 "; py ""].
Proof. repeat constructor. Qed.

Example int_values :
  int (py "05") = Ok 5 ∧ int (py " 7") = Ok 7 ∧ int (py "-12") = Ok (-12) ∧
  int (py "1_000") = Ok 1000 ∧
  int (py "1__0") = Raise (ValueError "invalid literal for int() with base 10") ∧
  int (py "") = Raise (ValueError "invalid literal for int() with base 10") ∧
  int [9%N; 53%N; 32%N] = Ok 5 ∧
  int [28%N; 53%N] = Raise (ValueError "invalid literal for int() with base 10").
Proof. by vm_compute. Qed.

Example datetime_argument_order :
  datetime.new_star 2026 [13; 1; 0; 0; 0; 0; 0]
  = Raise (ValueError "month must be in 1..12") ∧
  datetime.new_star 2026 [1; 1; 0; 0; 0; 0; 0]
  = Raise (TypeError
             "tzinfo argument must be None or of a tzinfo subclass, not type 'int'") ∧
  datetime.new_star 2026 [13; 1; 0; 0; 0; 0; 0; 0]
  = Raise (TypeError "function takes at most 8 positional arguments").
Proof. by vm_compute. Qed.

Example split_values :
  split 45 (py "1990-05-15") = [py "1990"; py "05"; py "15"] ∧
  split 45 (py "a--b") = [py "a"; py ""; py "b"] ∧
  split 45 (py "") = [py ""].
Proof. by vm_compute. Qed.

Example toordinal_values :
  datetime.toordinal (datetime.Build_date 1 1 1) = 1 ∧
  datetime.toordinal (datetime.Build_date 2000 1 1) = 730120 ∧
  datetime.toordinal (datetime.Build_date 2024 2 29) = 738945 ∧
  datetime.toordinal (datetime.Build_date 2026 11 3) = 739923.
Proof. by vm_compute. Qed.

Example range_values :
  range 0 5 2 = Ok [0; 2; 4] ∧ range 0 6 2 = Ok [0; 2; 4] ∧ range 0 0 3 = Ok [] ∧
  range 5 0 (-2) = Ok [5; 3; 1] ∧ range 0 5 (-1) = Ok [] ∧
  range 0 5 0 = Raise (ValueError "range() arg 3 must not be zero").
Proof. by vm_compute. Qed.

Example slice_values :
  slice [1; 2; 3; 4; 5] 2 4 = [3; 4] ∧ slice [1; 2; 3; 4; 5] 4 6 = [5] ∧
  slice [1; 2; 3; 4; 5] 6 8 = [] ∧ slice [1; 2; 3; 4; 5] (-2) 9 = [4; 5] ∧
  slice [1; 2; 3; 4; 5] 3 1 = [].
Proof. by vm_compute. Qed.

Example contains_values :
  contains (py "john doe") (py "john") = true ∧
  contains (py "john doe") (py "n d") = true ∧
  contains (py "john doe") (py "") = true ∧
  contains (py "john doe") (py "jon") = false ∧
  contains (py "") (py "j") = false.
Proof. by vm_compute. Qed.

Example open_values :
  resolve example_fs rb [] = Raise (OSError FileNotFoundError) ∧
  resolve example_fs wb [] = Raise (OSError FileNotFoundError) ∧
  resolve example_fs rb [0%N] = Raise (ValueError "embedded null byte") ∧
  resolve example_fs rb (py ".") = Raise (OSError IsADirectoryError) ∧
  resolve example_fs wb (py "no_such_dir/book.pkl") = Raise (OSError FileNotFoundError) ∧
  resolve example_fs rb (py "read_only.pkl") = Ok 3%N ∧
  resolve example_fs wb (py "read_only.pkl") = Raise (OSError PermissionError) ∧
  resolve example_fs wb (py "address_book.pkl") = Ok 1%N ∧
  resolve example_fs wb (py "./address_book.pkl") = Ok 1%N ∧
  read_file (py "address_book.pkl") example_fs = Raise (OSError FileNotFoundError).
Proof. by vm_compute. Qed.

Example AddressBook_on_paths :
  AddressBook.__init__ (H := countable_pickle) (py "address_book.pkl") example_fs
  = Ok empty_book ∧
  AddressBook.__init__ (H := countable_pickle) (py "no_such_dir/book.pkl") example_fs
  = Ok (AddressBook.Build [] (py "no_such_dir/book.pkl") 1) ∧
  AddressBook.__init__ (H := countable_pickle) (py ".") example_fs
  = Raise (OSError IsADirectoryError) ∧
  AddressBook.__init__ (H := countable_pickle) [0%N] example_fs
  = Raise (ValueError "embedded null byte") ∧
  AddressBook.dump (H := countable_pickle)
    (AddressBook.Build [] (py "no_such_dir/book.pkl") 1) example_fs
  = (Raise (OSError FileNotFoundError), example_fs) ∧
  AddressBook.dump (H := countable_pickle)
    (AddressBook.Build [] (py "read_only.pkl") 1) example_fs
  = (Raise (OSError PermissionError), example_fs).
Proof. split_and!; reflexivity. Qed.

End examples.

(** * Properties *)

(** ** Phones *)

Section phone_facts.
Context `{Unicode}.

Lemma isdigit_spec (s : str) :
  isdigit s = true ↔ s ≠ [] ∧ Forall (λ c, chr_isdigit c = true) s.
Proof.
  unfold isdigit. rewrite andb_true_iff, negb_true_iff, bool_decide_eq_false.
  rewrite forallb_forall, Forall_forall.
  setoid_rewrite <- list_elem_of_In. done.
Qed.

Lemma is_valid_phone_spec (s : str) : Phone.is_valid_phone s = true ↔ ten_numeric s.
Proof.
  unfold Phone.is_valid_phone, ten_numeric.
  rewrite andb_true_iff, bool_decide_eq_true, isdigit_spec.
  split; [tauto|]. intros [Hlen Hall]. repeat split; [done| |done].
  intros ->. done.
Qed.

Lemma Phone_init_valid (s : str) :
  Phone.is_valid_phone s = true → Phone.__init__ s = Ok (Phone.Build s).
Proof. unfold Phone.__init__, Phone.set_value. by intros ->. Qed.

Lemma Phone_init_invalid (s : str) :
  Phone.is_valid_phone s = false →
  Phone.__init__ s = Raise (ValueError "Invalid phone number").
Proof. unfold Phone.__init__, Phone.set_value. by intros ->. Qed.

(** C5.  Constructing a [Phone] from a string [s] succeeds exactly when [s]
    consists of 10 numeric characters; the phone then displays as [s]; for
    any other string the construction raises the error of kind
    [InvalidValue]. *)
Theorem Phone_init_iff_ten_numeric (s : str) :
  ((∃ p, Phone.__init__ s = Ok p) ↔ ten_numeric s) ∧
  (ten_numeric s → ∃ p, Phone.__init__ s = Ok p ∧ Phone.__str__ p = s) ∧
  (¬ ten_numeric s →
   ∃ e, Phone.__init__ s = Raise e ∧ kind_of e = Some InvalidValue).
Proof.
  rewrite <- is_valid_phone_spec.
  destruct (Phone.is_valid_phone s) eqn:Hv.
  - rewrite (Phone_init_valid s Hv). split_and!; [|intros _; by eexists|done].
    split; [done|]. intros _. by eexists.
  - rewrite (Phone_init_invalid s Hv). split_and!; [|done|intros _; by eexists].
    split; [|done]. by intros [p ?].
Qed.

End phone_facts.

(** ** Records *)

Section record_facts.
Context `{Unicode}.

(** What each method does, case by case. *)
Lemma add_phone_eq (n : str) (r : Record.t) :
  Record.add_phone n r =
    if Phone.is_valid_phone n then
      if bool_decide (n ∈ phone_values r)
      then (Raise (ValueError "Phone number already exists in the record"), r)
      else (Ok (), Record.set_phones (Record.phones r ++ [Phone.Build n]) r)
    else (Raise (ValueError "Invalid phone number"), r).
Proof.
  unfold Record.add_phone, Phone.__init__, Phone.set_value, phone_values.
  unfold_method.
  destruct (Phone.is_valid_phone n); simpl; [|done].
  by destruct (bool_decide _).
Qed.

Lemma find_phone_ref_Some (x : str) (r : Record.t) i p :
  Record.find_phone_ref x r = Some (i, p) ↔
    Record.phones r !! i = Some p ∧ Phone.value p = x ∧
    ∀ j q, Record.phones r !! j = Some q → (j < i)%nat → Phone.value q ≠ x.
Proof. unfold Record.find_phone_ref. by rewrite list_find_Some. Qed.

Lemma find_phone_ref_None (x : str) (r : Record.t) :
  Record.find_phone_ref x r = None ↔ x ∉ phone_values r.
Proof.
  unfold Record.find_phone_ref, phone_values.
  rewrite list_find_None, Forall_forall, list_elem_of_fmap. split.
  - intros Hall (p & -> & Hp). by apply (Hall p).
  - intros Hn p Hp Hv. apply Hn. by exists p.
Qed.

Lemma find_phone_ref_elem_of (x : str) (r : Record.t) :
  x ∈ phone_values r →
  ∃ i, Record.find_phone_ref x r = Some (i, Phone.Build x).
Proof.
  intros Hin. destruct (Record.find_phone_ref x r) as [[i [v]]|] eqn:Hf.
  - apply find_phone_ref_Some in Hf as Hf'. destruct Hf' as (_ & Hv & _).
    simpl in Hv. subst v. by exists i.
  - by apply find_phone_ref_None in Hf.
Qed.

Lemma edit_phone_eq (old new : str) (r : Record.t) :
  Record.edit_phone old new r =
    match Record.find_phone_ref old r with
    | Some (i, _) =>
        if Phone.is_valid_phone new then
          if bool_decide (new ∈ phone_values r)
          then (Raise (ValueError "New phone number already exists in the record"), r)
          else (Ok (), Record.set_phones (<[i := Phone.Build new]> (Record.phones r)) r)
        else (Raise (ValueError "Invalid phone number"), r)
    | None => (Raise (ValueError "Phone number not found in record"), r)
    end.
Proof.
  unfold Record.edit_phone, Phone.__init__, Phone.set_value, phone_values.
  unfold_method.
  destruct (Record.find_phone_ref old r) as [[i p]|]; [|done].
  destruct (Phone.is_valid_phone new) eqn:Hv; simpl; [|done].
  destruct (bool_decide _); simpl; [done|]. by rewrite Hv.
Qed.

Lemma remove_phone_eq (x : str) (r : Record.t) :
  Record.remove_phone x r =
    match Record.find_phone_ref x r with
    | Some (i, _) => (Ok (), Record.set_phones (delete i (Record.phones r)) r)
    | None => (Raise (ValueError "Phone number not found in record"), r)
    end.
Proof.
  unfold Record.remove_phone. unfold_method.
  by destruct (Record.find_phone_ref x r) as [[i p]|].
Qed.

(** Replacing an element of a duplicate-free list by a new one. *)
Lemma NoDup_insert_fresh {A} (l : list A) (i : nat) (x : A) :
  NoDup l → x ∉ l → NoDup (<[i:=x]> l).
Proof.
  intros Hl Hx. apply NoDup_alt. intros j k y Hj Hk.
  apply list_lookup_insert_Some in Hj as [(Hj1 & Hj2 & _)|[Hij Hj]];
    apply list_lookup_insert_Some in Hk as [(Hk1 & Hk2 & _)|[Hik Hk]].
  - congruence.
  - exfalso. apply Hx. rewrite Hj2. by eapply list_elem_of_lookup_2.
  - exfalso. apply Hx. rewrite Hk2. by eapply list_elem_of_lookup_2.
  - by eapply NoDup_lookup.
Qed.

Lemma not_elem_of_insert_old {A} (l : list A) (i : nat) (x y : A) :
  NoDup l → l !! i = Some x → x ≠ y → x ∉ <[i:=y]> l.
Proof.
  intros Hl Hi Hxy [j Hj]%list_elem_of_lookup_1.
  apply list_lookup_insert_Some in Hj as [(_ & ? & _)|[Hij Hj]]; [done|].
  apply Hij. by eapply NoDup_lookup.
Qed.

(** *** The invariants under each method *)

Lemma add_phone_unique n r :
  phones_unique r → phones_unique (state_after (Record.add_phone n) r).
Proof.
  unfold state_after. rewrite add_phone_eq.
  destruct (Phone.is_valid_phone n); [|done].
  case_bool_decide as Hin; [done|]. intros Hr.
  unfold phones_unique, phone_values in *. simpl. rewrite fmap_app.
  apply NoDup_app. split_and!; [done| |apply NoDup_singleton].
  intros x Hx ->%list_elem_of_singleton. done.
Qed.

Lemma edit_phone_unique old new r :
  phones_unique r → phones_unique (state_after (Record.edit_phone old new) r).
Proof.
  unfold state_after. rewrite edit_phone_eq.
  destruct (Record.find_phone_ref old r) as [[i p]|]; [|done].
  destruct (Phone.is_valid_phone new); [|done].
  case_bool_decide as Hin; [done|]. intros Hr.
  unfold phones_unique, phone_values in *. simpl. rewrite list_fmap_insert.
  by apply NoDup_insert_fresh.
Qed.

Lemma remove_phone_unique x r :
  phones_unique r → phones_unique (state_after (Record.remove_phone x) r).
Proof.
  unfold state_after. rewrite remove_phone_eq.
  destruct (Record.find_phone_ref x r) as [[i p]|]; [|done]. intros Hr.
  unfold phones_unique, phone_values in *. simpl. rewrite list_fmap_delete.
  eapply sublist_NoDup; [done|apply sublist_delete].
Qed.

Lemma add_phone_valid n r :
  phones_valid r → phones_valid (state_after (Record.add_phone n) r).
Proof.
  unfold state_after. rewrite add_phone_eq.
  destruct (Phone.is_valid_phone n) eqn:Hv; [|done].
  case_bool_decide as Hin; [done|]. intros Hr.
  unfold phones_valid, phone_values in *. simpl. rewrite fmap_app.
  apply Forall_app. split; [done|]. by repeat constructor.
Qed.

Lemma edit_phone_valid old new r :
  phones_valid r → phones_valid (state_after (Record.edit_phone old new) r).
Proof.
  unfold state_after. rewrite edit_phone_eq.
  destruct (Record.find_phone_ref old r) as [[i p]|]; [|done].
  destruct (Phone.is_valid_phone new) eqn:Hv; [|done].
  case_bool_decide as Hin; [done|]. intros Hr.
  unfold phones_valid, phone_values in *. simpl. rewrite list_fmap_insert.
  by apply Forall_insert.
Qed.

Lemma remove_phone_valid x r :
  phones_valid r → phones_valid (state_after (Record.remove_phone x) r).
Proof.
  unfold state_after. rewrite remove_phone_eq.
  destruct (Record.find_phone_ref x r) as [[i p]|]; [|done]. intros Hr.
  unfold phones_valid, phone_values in *. simpl. rewrite list_fmap_delete.
  by apply Forall_delete.
Qed.

(** A loop keeps what its body keeps. *)
Lemma for_each_preserves {S A} (P : S → Prop) (body : A → method S ()) xs self :
  (∀ x s, P s → P (state_after (body x) s)) →
  P self → P (state_after (for_each body xs) self).
Proof.
  intros Hbody. revert self. induction xs as [|x xs IH]; intros self Hs; [done|].
  specialize (Hbody x self Hs). specialize (IH (state_after (body x) self)).
  unfold state_after in *. simpl. unfold mbind, method_bind.
  destruct (body x self) as [[[]|e] s']; simpl in *; [by apply IH|done].
Qed.

Lemma init_preserves (P : Record.t → Prop) name phone_numbers birthday r :
  (∀ n b, P (Record.Build n [] b)) →
  (∀ x s, P s → P (state_after (Record.add_phone x) s)) →
  Record.__init__ name phone_numbers birthday = Ok r → P r.
Proof.
  intros Hnew Hadd. unfold Record.__init__.
  destruct (match birthday with Some v => _ | None => _ end) as [b|e];
    unfold_method; [|done].
  destruct phone_numbers as [l|]; [|by intros [= <-]].
  case_bool_decide; [by intros [= <-]|].
  pose proof (for_each_preserves P Record.add_phone l
    (Record.Build (Name.__init__ name) [] b) Hadd (Hnew _ _)) as HP.
  unfold state_after in HP.
  destruct (for_each Record.add_phone l _) as [[[]|e] s']; [|done].
  by intros [= <-].
Qed.

Lemma init_unique name phone_numbers birthday r :
  Record.__init__ name phone_numbers birthday = Ok r → phones_unique r.
Proof.
  apply init_preserves; [|intros; by apply add_phone_unique].
  intros. apply NoDup_nil_2.
Qed.

Lemma init_valid name phone_numbers birthday r :
  Record.__init__ name phone_numbers birthday = Ok r → phones_valid r.
Proof.
  apply init_preserves; [|intros; by apply add_phone_valid].
  intros. apply Forall_nil_2.
Qed.

(** Every record the program can build has unique, valid phones. *)
Lemma reachable_invariants r : reachable r → phones_unique r ∧ phones_valid r.
Proof.
  induction 1 as [name pn b r Hr|n r _ [IHu IHv]|old new r _ [IHu IHv]|n r _ [IHu IHv]].
  - eauto using init_unique, init_valid.
  - eauto using add_phone_unique, add_phone_valid.
  - eauto using edit_phone_unique, edit_phone_valid.
  - eauto using remove_phone_unique, remove_phone_valid.
Qed.

End record_facts.

Section record_claims.
Context `{Unicode}.

(** C6.  Adding a valid number twice: whatever the first call did, the
    second one raises the error of kind [DuplicatePhone] and leaves the
    record, hence the length of its phone list, as the first call left it.
    (When the number was not in the record, the first call succeeds.) *)
Theorem add_phone_twice_duplicate (r : Record.t) (n : str) :
  Phone.is_valid_phone n = true →
  (n ∉ phone_values r → result_of (Record.add_phone n) r = Ok ()) ∧
  ∃ e,
    Record.add_phone n (state_after (Record.add_phone n) r)
      = (Raise e, state_after (Record.add_phone n) r) ∧
    kind_of e = Some DuplicatePhone ∧
    length (Record.phones
              (state_after (Record.add_phone n) (state_after (Record.add_phone n) r)))
      = length (Record.phones (state_after (Record.add_phone n) r)).
Proof.
  intros Hv. unfold state_after, result_of. rewrite (add_phone_eq n r), Hv.
  split.
  { intros Hn. by rewrite bool_decide_eq_false_2. }
  exists (ValueError "Phone number already exists in the record").
  case_bool_decide as Hin; simpl.
  - rewrite add_phone_eq, Hv, bool_decide_eq_true_2 by done. done.
  - rewrite add_phone_eq, Hv, bool_decide_eq_true_2; [done|].
    unfold phone_values. simpl. rewrite fmap_app. set_solver.
Qed.

(** C7.  [edit_phone] with an old number the record does not hold raises
    the error of kind [NotFound] and leaves the record (name, phones and
    birthday) as it was. *)
Theorem edit_phone_not_found (r : Record.t) (old new : str) :
  old ∉ phone_values r →
  ∃ e, Record.edit_phone old new r = (Raise e, r) ∧ kind_of e = Some NotFound.
Proof.
  intros Hold%find_phone_ref_None. rewrite edit_phone_eq, Hold. by eexists.
Qed.

(** In a record of unique phones that holds [old], with [new] valid and
    not in the record, [edit_phone old new] puts [new] where [old] was. *)
Lemma edit_phone_replaces_of_unique (r : Record.t) (old new : str) :
  phones_unique r →
  old ∈ phone_values r →
  Phone.is_valid_phone new = true →
  new ∉ phone_values r →
  ∃ i r',
    Record.edit_phone old new r = (Ok (), r') ∧
    Record.phones r !! i = Some (Phone.Build old) ∧
    Record.phones r' !! i = Some (Phone.Build new) ∧
    length (Record.phones r') = length (Record.phones r) ∧
    (∀ j, j ≠ i → Record.phones r' !! j = Record.phones r !! j) ∧
    Record.name r' = Record.name r ∧
    Record.birthday r' = Record.birthday r ∧
    Record.find_phone old r' = None ∧
    Record.find_phone new r' = Some (Phone.Build new).
Proof.
  intros Hu Hold Hv Hnew.
  destruct (find_phone_ref_elem_of old r Hold) as [i Hf].
  apply find_phone_ref_Some in Hf as Hf'. destruct Hf' as (Hi & _ & _).
  exists i, (Record.set_phones (<[i := Phone.Build new]> (Record.phones r)) r).
  assert (i < length (Record.phones r))%nat as Hlt by by eapply lookup_lt_Some.
  assert (old ≠ new) as Hne by (by intros ->).
  split_and!; simpl.
  - rewrite edit_phone_eq, Hf, Hv. by rewrite bool_decide_eq_false_2.
  - done.
  - by apply list_lookup_insert_eq.
  - apply length_insert.
  - intros j Hj. by apply list_lookup_insert_ne.
  - done.
  - done.
  - unfold Record.find_phone.
    replace (Record.find_phone_ref old _) with (@None (nat * Phone.t)); [done|].
    symmetry. apply find_phone_ref_None. unfold phone_values. simpl.
    rewrite list_fmap_insert. apply not_elem_of_insert_old; [done| |done].
    by rewrite list_lookup_fmap, Hi.
  - unfold Record.find_phone.
    destruct (find_phone_ref_elem_of new
      (Record.set_phones (<[i := Phone.Build new]> (Record.phones r)) r)) as [k ->];
      [|done].
    unfold phone_values. simpl. rewrite list_fmap_insert.
    apply list_elem_of_insert. by rewrite length_fmap.
Qed.

(** C9.  No two phones of a record have equal value: this holds of every
    record the constructor returns, and each of [add_phone], [edit_phone]
    and [remove_phone] keeps it, whether the call returns or raises; so it
    holds of every record the program builds. *)
Theorem phones_unique_invariant :
  (∀ name phone_numbers birthday r,
     Record.__init__ name phone_numbers birthday = Ok r → phones_unique r) ∧
  (∀ n r, phones_unique r → phones_unique (state_after (Record.add_phone n) r)) ∧
  (∀ old new r,
     phones_unique r → phones_unique (state_after (Record.edit_phone old new) r)) ∧
  (∀ n r, phones_unique r → phones_unique (state_after (Record.remove_phone n) r)) ∧
  (∀ r, reachable r → phones_unique r).
Proof.
  split_and!.
  - apply init_unique.
  - apply add_phone_unique.
  - apply edit_phone_unique.
  - apply remove_phone_unique.
  - intros r Hr. by apply reachable_invariants.
Qed.

(** In a record whose phones are valid numbers, editing a number the
    record holds to itself is refused as a duplicate. *)
Lemma edit_phone_to_itself_of_valid (r : Record.t) (x : str) :
  phones_valid r →
  x ∈ phone_values r →
  ∃ e, Record.edit_phone x x r = (Raise e, r) ∧ kind_of e = Some DuplicatePhone.
Proof.
  intros Hvalid Hx.
  destruct (find_phone_ref_elem_of x r Hx) as [i Hf].
  unfold phones_valid in Hvalid. rewrite Forall_forall in Hvalid.
  rewrite edit_phone_eq, Hf, (Hvalid x Hx), bool_decide_eq_true_2 by done.
  by eexists.
Qed.

(** C8.  For every record the program builds (by the constructor and the
    methods), if it holds [old] and [new] is a valid number it does not
    hold, [edit_phone old new] succeeds and puts [new] at the position
    [old] had: the list keeps its length and every other position, name
    and birthday are untouched.  Afterwards [find_phone old] is [None] and
    [find_phone new] is the phone of value [new]. *)
Theorem edit_phone_replaces_in_place (r : Record.t) (old new : str) :
  reachable r →
  old ∈ phone_values r →
  Phone.is_valid_phone new = true →
  new ∉ phone_values r →
  ∃ i r',
    Record.edit_phone old new r = (Ok (), r') ∧
    Record.phones r !! i = Some (Phone.Build old) ∧
    Record.phones r' !! i = Some (Phone.Build new) ∧
    length (Record.phones r') = length (Record.phones r) ∧
    (∀ j, j ≠ i → Record.phones r' !! j = Record.phones r !! j) ∧
    Record.name r' = Record.name r ∧
    Record.birthday r' = Record.birthday r ∧
    Record.find_phone old r' = None ∧
    Record.find_phone new r' = Some (Phone.Build new).
Proof.
  intros [Hunique _]%reachable_invariants. by apply edit_phone_replaces_of_unique.
Qed.

(** C10.  For every record the program builds and every number [x] it
    holds, [edit_phone x x] raises the error of kind [DuplicatePhone],
    although the old number is present, and leaves the record as it was. *)
Theorem edit_phone_to_itself (r : Record.t) (x : str) :
  reachable r →
  x ∈ phone_values r →
  ∃ e, Record.edit_phone x x r = (Raise e, r) ∧ kind_of e = Some DuplicatePhone.
Proof.
  intros [_ Hvalid]%reachable_invariants. by apply edit_phone_to_itself_of_valid.
Qed.

End record_claims.

(** ** Substrings *)

Lemma starts_with_spec (sub s : str) : starts_with sub s = true ↔ sub `prefix_of` s.
Proof.
  revert s. induction sub as [|a sub IH]; intros s; simpl.
  - split; [intros _; apply prefix_nil|done].
  - destruct s as [|b s].
    + split; [done|]. by intros ?%prefix_nil_not.
    + rewrite andb_true_iff, bool_decide_eq_true, IH. split.
      * intros [-> Hp]. by apply prefix_cons.
      * intros Hp. split; [by eapply prefix_cons_inv_1|by eapply prefix_cons_inv_2].
Qed.

Lemma contains_spec (s sub : str) : contains s sub = true ↔ substring sub s.
Proof.
  unfold substring. induction s as [|c s IH]; simpl.
  - rewrite orb_false_r, starts_with_spec. split.
    + intros [post ->]. by exists [], post.
    + intros (pre & post & Heq). symmetry in Heq.
      apply app_eq_nil in Heq as [-> [-> ->]%app_eq_nil]. done.
  - rewrite orb_true_iff, starts_with_spec, IH. split.
    + intros [[post ->]|(pre & post & ->)].
      * by exists [], post.
      * by exists (c :: pre), post.
    + intros ([|c' pre] & post & Heq); simpl in Heq.
      * left. by exists post.
      * right. injection Heq as -> ->. by exists pre, post.
Qed.

(** ** [AddressBook.find] *)

Section find_facts.
Context `{Unicode}.

Global Instance name_matches_dec query r : Decision (name_matches query r).
Proof.
  refine (cast_if (decide (contains (lower (Name.value (Record.name r)))
                             (lower query) = true)));
    unfold name_matches; by rewrite <- contains_spec.
Defined.

Global Instance phone_matches_dec query p : Decision (phone_matches query p).
Proof.
  refine (cast_if (decide (contains (Phone.value p) query = true)));
    unfold phone_matches; by rewrite <- contains_spec.
Defined.

(** How often [find] lists the record [r]: once if its name matches, and
    once for each of its phones that matches. *)
Definition hits (query : str) (r : Record.t) : nat :=
  ((if decide (name_matches query r) then 1 else 0) +
   length (filter (phone_matches query) (Record.phones r)))%nat.

(** A loop that only appends to its accumulator. *)
Lemma foldl_append {A B} (g : list B → A → list B) (f : A → list B) l acc :
  (∀ acc x, g acc x = acc ++ f x) → foldl g acc l = acc ++ (l ≫= f).
Proof.
  intros Hg. revert acc. induction l as [|x l IH]; intros acc; csimpl.
  - by rewrite app_nil_r.
  - by rewrite IH, Hg, <- app_assoc.
Qed.

Lemma phone_loop_replicate (query : str) (r : Record.t) (ps : list Phone.t) :
  (ps ≫= λ p, if contains (Phone.value p) query then [r] else [])
  = replicate (length (filter (phone_matches query) ps)) r.
Proof.
  induction ps as [|p ps IH]; [done|]. csimpl. rewrite IH.
  rewrite filter_cons. destruct (decide (phone_matches query p)) as [Hm|Hm].
  - apply contains_spec in Hm. by rewrite Hm.
  - unfold phone_matches in Hm. rewrite <- contains_spec in Hm.
    by destruct (contains _ _).
Qed.

(** [find] lists the records in dictionary order, each as often as it
    [hits]. *)
Lemma find_eq (query : str) (ab : AddressBook.t) :
  AddressBook.find query ab
  = dict_values (AddressBook.data ab) ≫= λ r, replicate (hits query r) r.
Proof.
  unfold AddressBook.find.
  rewrite (foldl_append _ (λ r, replicate (hits query r) r)); [done|].
  intros acc r.
  rewrite (foldl_append _ (λ p, if contains (Phone.value p) query then [r] else []));
    [|intros acc' p; destruct (contains _ _); by rewrite ?app_nil_r].
  rewrite phone_loop_replicate. unfold hits.
  destruct (decide (name_matches query r)) as [Hm|Hm].
  - apply contains_spec in Hm. rewrite Hm. by rewrite <- app_assoc.
  - unfold name_matches in Hm. rewrite <- contains_spec in Hm.
    by destruct (contains _ _).
Qed.

Lemma hits_pos (query : str) (r : Record.t) :
  (0 < hits query r)%nat ↔
  name_matches query r ∨ ∃ p, p ∈ Record.phones r ∧ phone_matches query p.
Proof.
  unfold hits. split.
  - intros Hpos. destruct (decide (name_matches query r)); [by left|right].
    destruct (filter (phone_matches query) (Record.phones r)) as [|p ps] eqn:Hf;
      [simpl in Hpos; lia|].
    exists p. apply and_comm, (list_elem_of_filter (phone_matches query)).
    rewrite Hf. by left.
  - intros [Hn|(p & Hp & Hm)].
    + rewrite decide_True by done. lia.
    + assert (p ∈ filter (phone_matches query) (Record.phones r)) as Hin
        by by apply list_elem_of_filter.
      destruct (filter _ _); [by apply elem_of_nil in Hin|simpl; lia].
Qed.

Lemma dict_setitem_values_elem_of {V} (k : str) (v : V) (d : dict V) :
  v ∈ dict_values (dict_setitem k v d).
Proof.
  unfold dict_values. induction d as [|[k' v'] d IH]; simpl.
  - by left.
  - case_bool_decide; simpl; [by left|by right].
Qed.

End find_facts.

Section find_claims.
Context `{Unicode}.

(** C3.  [find query] returns exactly the records of the book whose name
    contains the query, case ignored, or one of whose phones contains it.
    It lists them in dictionary order and without removing duplicates: a
    record stands once for each of its phones that matches, after once for
    its name if that matches.  With a record named "John Doe" of phone
    "1234567890" added, [find "john"] contains the record; added to an
    empty book, [find "john"] is that record alone and [find "999"] is
    empty. *)
Theorem find_returns_matches (query : str) (ab : AddressBook.t) :
  (∀ r, r ∈ AddressBook.find query ab ↔
        r ∈ dict_values (AddressBook.data ab) ∧
        (name_matches query r ∨
         ∃ p, p ∈ Record.phones r ∧ phone_matches query p)) ∧
  AddressBook.find query ab
    = (dict_values (AddressBook.data ab) ≫= λ r,
         (if decide (name_matches query r) then [r] else []) ++
         replicate (length (filter (phone_matches query) (Record.phones r))) r) ∧
  (∀ john,
     Record.name john = Name.Build (py "John Doe") →
     Record.phones john = [Phone.Build (py "1234567890")] →
     john ∈ AddressBook.find (py "john") (AddressBook.add_record john ab) ∧
     (AddressBook.data ab = [] →
      AddressBook.find (py "john") (AddressBook.add_record john ab) = [john] ∧
      AddressBook.find (py "999") (AddressBook.add_record john ab) = [])).
Proof.
  assert (∀ q b r, r ∈ AddressBook.find q b ↔
        r ∈ dict_values (AddressBook.data b) ∧
        (name_matches q r ∨ ∃ p, p ∈ Record.phones r ∧ phone_matches q p))
    as Hmem.
  { intros q b r. rewrite find_eq, list_elem_of_bind. split.
    - intros (r' & [-> Hn]%elem_of_replicate & Hr). split; [done|].
      apply hits_pos. lia.
    - intros [Hr Hm%hits_pos]. exists r. split; [|done].
      apply elem_of_replicate. split; [done|lia]. }
  split_and!.
  - apply Hmem.
  - rewrite find_eq. apply list_bind_ext; [|done]. intros r. unfold hits.
    by destruct (decide (name_matches query r)).
  - intros [[n] ps b]; simpl; intros [= ->] ->.
    assert (name_matches (py "john")
              (Record.Build (Name.Build (py "John Doe"))
                 [Phone.Build (py "1234567890")] b)) as Hjohn.
    { apply contains_spec. simpl. by rewrite !lower_ascii by done. }
    split.
    + apply Hmem. split; [apply dict_setitem_values_elem_of|by left].
    + intros Hempty. unfold AddressBook.find, AddressBook.add_record.
      rewrite Hempty. simpl. rewrite !lower_ascii by done. done.
Qed.

(** One record, listed once for its name and once for each matching
    phone: "Jane Smith" with phones "5555555555" and "5554444444". *)
Lemma find_lists_duplicates :
  let book := AddressBook.add_record jane_smith empty_book in
  AddressBook.find (py "jane") book = [jane_smith] ∧
  AddressBook.find (py "4444") book = [jane_smith] ∧
  AddressBook.find (py "555") book = [jane_smith; jane_smith] ∧
  AddressBook.find (py "") book = [jane_smith; jane_smith; jane_smith].
Proof.
  unfold AddressBook.find. simpl. rewrite !lower_ascii by done. done.
Qed.

End find_claims.

(** ** [AddressBook.iterator] *)

(** A slice that starts inside or after the list and runs forward. *)
Lemma slice_forward {A} (l : list A) (i b : Z) :
  0 ≤ i → 0 ≤ b → slice l i (i + b) = take (Z.to_nat b) (drop (Z.to_nat i) l).
Proof.
  intros Hi Hb. unfold slice.
  rewrite !bool_decide_eq_false_2 by lia.
  destruct (decide (i + b ≤ Z.of_nat (length l))) as [Hle|Hgt].
  - rewrite !Z.min_l by lia. do 2 f_equal. lia.
  - destruct (decide (i ≤ Z.of_nat (length l))) as [Hle|Hgt'].
    + rewrite (Z.min_r (i + b)), (Z.min_l i) by lia.
      rewrite !take_ge; [done|rewrite length_drop; lia..].
    + rewrite !Z.min_r by lia. rewrite !drop_ge by lia. by rewrite !take_nil.
Qed.

Lemma range_positive_step (n step : Z) :
  0 ≤ n → 0 < step →
  ∃ m, range 0 n step = Ok ((λ i : nat, 0 + Z.of_nat i * step) <$> seq 0 m) ∧
       batch_count m (Z.to_nat step) (Z.to_nat n).
Proof.
  intros Hn Hstep. unfold range, batch_count.
  rewrite bool_decide_eq_false_2, bool_decide_eq_true_2 by lia.
  eexists. split; [done|].
  rewrite Z.sub_0_r. case_bool_decide as Hpos.
  - pose proof (Z.mul_div_le (n - 1) step Hstep).
    pose proof (Z.mul_succ_div_gt (n - 1) step Hstep).
    assert (0 ≤ (n - 1) `div` step) by (apply Z.div_pos; lia).
    rewrite <- Z2Nat.inj_mul, <- Z2Nat.inj_add by lia.
    split; [apply Z2Nat.inj_lt|apply Z2Nat.inj_le]; nia.
  - assert (n = 0) as -> by lia. simpl. lia.
Qed.

(** Cutting a list into batches and gluing them gives the list back. *)
Lemma batches_concat {A} (b m : nat) (l : list A) :
  (0 < b)%nat → batch_count m b (length l) →
  concat ((λ k, take b (drop (k * b) l)) <$> seq 0 m) = l.
Proof.
  intros Hb. unfold batch_count. revert l.
  induction m as [|m IH]; intros l [Hlt Hle].
  - destruct l; [done|simpl in Hle; lia].
  - change (seq 0 (S m)) with (0 :: seq 1 m)%nat.
    rewrite fmap_cons, concat_cons, <- fmap_S_seq, <- list_fmap_compose.
    change (drop (0 * b) l) with l.
    transitivity (take b l ++ drop b l); [|apply take_drop].
    f_equal. rewrite <- (IH (drop b l)) by (rewrite length_drop; lia).
    f_equal. apply list_fmap_ext. intros _ k _. simpl.
    by rewrite drop_drop.
Qed.

Lemma batches_length {A} (b m k : nat) (l : list A) :
  (0 < b)%nat → batch_count m b (length l) → (k < m)%nat →
  (0 < length (take b (drop (k * b) l)) ≤ b)%nat ∧
  (S k < m → length (take b (drop (k * b) l)) = b)%nat.
Proof.
  unfold batch_count. intros Hb [Hlt Hle] Hk.
  rewrite length_take, length_drop. nia.
Qed.

Lemma dict_setitem_new {V} (k : str) (v : V) (d : dict V) :
  k ∉ dict_keys d → dict_setitem k v d = d ++ [(k, v)].
Proof.
  unfold dict_keys. induction d as [|[k' v'] d IH]; simpl; [done|].
  intros [Hne Hd]%not_elem_of_cons.
  rewrite bool_decide_eq_false_2 by done. by rewrite IH.
Qed.

(** C4.  For a positive batch size, [iterator] yields finitely many
    batches; glued together they are the records of the book, each once,
    in dictionary order, which is insertion order (a record added under a
    new name goes last); no batch is empty or longer than the batch size,
    and every batch but the last has exactly that size.  Over 5 records
    with batch size 2 the sizes are 2, 2, 1. *)
Theorem iterator_batches (batch_size : Z) (ab : AddressBook.t) :
  0 < batch_size →
  ∃ batches,
    AddressBook.iterator batch_size ab = Ok batches ∧
    concat batches = dict_values (AddressBook.data ab) ∧
    (∀ i batch, batches !! i = Some batch →
       (0 < length batch)%nat ∧ Z.of_nat (length batch) ≤ batch_size ∧
       ((S i < length batches)%nat → Z.of_nat (length batch) = batch_size)) ∧
    (∀ r, Name.value (Record.name r) ∉ dict_keys (AddressBook.data ab) →
       dict_values (AddressBook.data (AddressBook.add_record r ab))
       = dict_values (AddressBook.data ab) ++ [r]) ∧
    (length (AddressBook.data ab) = 5%nat → batch_size = 2 →
     length <$> batches = [2; 2; 1]%nat).
Proof.
  intros Hpos. unfold AddressBook.iterator.
  set (records := dict_values (AddressBook.data ab)).
  destruct (range_positive_step (Z.of_nat (length records)) batch_size)
    as (m & -> & Hm); [lia..|].
  rewrite Nat2Z.id in Hm.
  set (b := Z.to_nat batch_size) in *.
  assert (0 < b)%nat as Hb by lia.
  eexists. split; [done|]. unfold_method.
  rewrite <- list_fmap_compose.
  assert ((λ i : Z, slice records i (i + batch_size))
            ∘ (λ i : nat, 0 + Z.of_nat i * batch_size) <$> seq 0 m
          = (λ k, take b (drop (k * b) records)) <$> seq 0 m) as ->.
  { apply list_fmap_ext. intros _ k _. simpl.
    rewrite slice_forward by lia. do 2 f_equal. lia. }
  split_and!.
  - by apply batches_concat.
  - intros i batch (k & -> & [Hki Hk]%lookup_seq)%list_lookup_fmap_Some.
    simpl in Hki. subst k. rewrite length_fmap, length_seq.
    destruct (batches_length b m i records Hb Hm Hk) as [[Hlo Hhi] Hfull].
    split_and!; [done|lia|]. intros Hlast. rewrite Hfull by done. lia.
  - intros r Hnew. unfold AddressBook.add_record, dict_values. simpl.
    by rewrite dict_setitem_new, fmap_app.
  - intros Hlen ->. subst records. unfold dict_values in *.
    rewrite length_fmap, Hlen in Hm. unfold batch_count in Hm.
    assert (m = 3%nat) as -> by (subst b; lia).
    destruct (AddressBook.data ab) as [|r1 [|r2 [|r3 [|r4 [|r5 [|r6 d]]]]]];
      try done.
Qed.

(** ** [dump] and [load] *)

Section persistence.
Context `{Pickle (Z * dict Record.t)}.



(** Paths resolve by [node_of] alone. *)
Lemma resolve_node_of (fs fs' : filesystem) (m : mode) (p : path) :
  node_of fs' = node_of fs → resolve fs' m p = resolve fs m p.
Proof. intros Hn. unfold resolve. by rewrite Hn. Qed.





End persistence.

(** ** Text without non-ASCII characters

    On ASCII text the functions that consult the Unicode database do not
    depend on it: they agree with their ASCII-only instance, which runs. *)

Section ascii_agreement.
Context `{U : Unicode}.

Lemma lstrip_ascii_text s : ascii_text s → ascii_text (lstrip s).
Proof.
  induction 1 as [|c s Hc Hs IH]; simpl; [done|].
  destruct (int_isspace c); [done|by constructor].
Qed.

Lemma strip_ascii_text s : ascii_text s → ascii_text (strip s).
Proof.
  intros Hs. unfold strip. apply Forall_reverse, lstrip_ascii_text.
  by apply Forall_reverse, lstrip_ascii_text.
Qed.

Lemma lstrip_ascii s : ascii_text s → lstrip s = lstrip (H := ascii_unicode) s.
Proof.
  induction 1 as [|c s Hc Hs IH]; simpl; [done|].
  unfold int_isspace. by rewrite Hc, IH.
Qed.

Lemma strip_ascii s : ascii_text s → strip s = strip (H := ascii_unicode) s.
Proof.
  intros Hs. unfold strip. rewrite <- (lstrip_ascii s) by done.
  rewrite <- lstrip_ascii; [done|]. by apply Forall_reverse, lstrip_ascii_text.
Qed.

Lemma int_digits_ascii s acc :
  ascii_text s → int_digits acc s = int_digits (H := ascii_unicode) acc s.
Proof.
  remember (length s) as n eqn:Hn. revert s acc Hn.
  induction n as [n IH] using lt_wf_ind. intros s acc -> Hs.
  destruct s as [|c s]; [done|]. simpl.
  apply Forall_cons in Hs as [Hc Hs]. case_bool_decide.
  - destruct s as [|d s]; [done|]. apply Forall_cons in Hs as [Hd Hs].
    rewrite (chr_decimal_ascii d Hd). simpl. unfold ascii_decimal.
    destruct (ascii_isdigit d); simpl; [|done].
    eapply IH; [|done..]. simpl. lia.
  - rewrite (chr_decimal_ascii c Hc). simpl. unfold ascii_decimal.
    destruct (ascii_isdigit c); simpl; [|done].
    eapply IH; [|done..]. simpl. lia.
Qed.

Lemma int_unsigned_ascii s :
  ascii_text s → int_unsigned s = int_unsigned (H := ascii_unicode) s.
Proof.
  intros Hs. destruct s as [|c s]; [done|]. simpl.
  apply Forall_cons in Hs as [Hc Hs].
  rewrite (chr_decimal_ascii c Hc). simpl. unfold ascii_decimal.
  destruct (ascii_isdigit c); simpl; [|done]. by apply int_digits_ascii.
Qed.

Lemma int_ascii s : ascii_text s → int s = int (H := ascii_unicode) s.
Proof.
  intros Hs. unfold int. rewrite <- strip_ascii by done.
  pose proof (strip_ascii_text s Hs) as Hs'.
  assert (∀ t, ascii_text t → int_unsigned t = int_unsigned (H := ascii_unicode) t)
    as Hu by apply int_unsigned_ascii.
  destruct (strip s) as [|c t]; [done|].
  apply Forall_cons in Hs' as Hct. destruct Hct as [_ Ht].
  by rewrite (Hu t Ht), (Hu (c :: t) Hs').
Qed.

Lemma isdigit_ascii s : ascii_text s → isdigit s = isdigit (H := ascii_unicode) s.
Proof.
  intros Hs. unfold isdigit. f_equal.
  induction Hs as [|c s Hc Hs IH]; simpl; [done|].
  by rewrite chr_isdigit_ascii, IH.
Qed.

(** *** What the matchers of the format emit *)

Lemma re_char_emits (P : char → bool) (Q : char → Prop) :
  (∀ c, P c = true → Q c) → emits Q (re_char P).
Proof.
  intros HPQ [|c s] x r; simpl; [by intros ?%elem_of_nil|].
  destruct (P c) eqn:HP; [|by intros ?%elem_of_nil].
  intros [= -> ->]%list_elem_of_singleton. split; [done|]. repeat constructor.
  by apply HPQ.
Qed.

Lemma re_seq_emits Q a b : emits Q a → emits Q b → emits Q (re_seq a b).
Proof.
  intros Ha Hb s x r. unfold re_seq.
  intros ([x1 s1] & ([x2 s2] & Hx & H2)%list_elem_of_bind & H1)%list_elem_of_bind.
  apply list_elem_of_singleton in Hx as [= -> ->].
  destruct (Ha _ _ _ H1) as [-> ?], (Hb _ _ _ H2) as [-> ?].
  split; [by rewrite <- app_assoc|by apply Forall_app].
Qed.

Lemma re_alt_emits Q a b : emits Q a → emits Q b → emits Q (re_alt a b).
Proof.
  intros Ha Hb s x r. unfold re_alt. intros [?|?]%elem_of_app; eauto.
Qed.

Lemma re_range_emits lo hi :
  (hi ≤ 9)%N → emits (λ c, is_ascii c = true ∧ c ≠ 45%N) (re_range lo hi).
Proof.
  intros Hhi. apply re_char_emits. intros c [Hlo Hc]%andb_true_iff.
  apply N.leb_le in Hlo, Hc. unfold is_ascii. rewrite N.ltb_lt. lia.
Qed.

Lemma re_lit_emits a : emits (λ c, c = a) (re_lit a).
Proof. apply re_char_emits. by intros c ?%bool_decide_eq_true. Qed.

Lemma chr_decimal_not_dash c : is_Some (chr_decimal c) → c ≠ 45%N.
Proof. intros [d Hd] ->. by rewrite chr_decimal_ascii in Hd. Qed.

Lemma re_d_emits : emits (λ c, c ≠ 45%N) re_d.
Proof.
  apply re_char_emits. intros c ?%bool_decide_eq_true.
  by apply chr_decimal_not_dash.
Qed.

Lemma emits_weaken (Q Q' : char → Prop) a : (∀ c, Q c → Q' c) → emits Q a → emits Q' a.
Proof.
  intros HQ Ha s x r Hx. destruct (Ha s x r Hx) as [-> Hall].
  split; [done|]. eapply Forall_impl; eauto.
Qed.

Lemma re_Y_emits : emits (λ c, c ≠ 45%N) re_Y.
Proof. unfold re_Y. repeat apply re_seq_emits; apply re_d_emits. Qed.

Lemma re_m_emits : emits (λ c, c ≠ 45%N) re_m.
Proof.
  unfold re_m.
  repeat first [apply re_alt_emits | apply re_seq_emits];
    (eapply emits_weaken; [|by apply re_range_emits]); by intros c [_ ?].
Qed.

Lemma re_dd_emits : emits (λ c, c ≠ 45%N) re_dd.
Proof.
  unfold re_dd.
  repeat first [apply re_alt_emits | apply re_seq_emits];
    first [ apply re_d_emits
          | eapply emits_weaken; [|by apply re_range_emits]; by intros c [_ ?]
          | eapply emits_weaken; [|apply re_lit_emits]; by intros c -> ].
Qed.

Lemma re_lit_inv a s x r : (x, r) ∈ re_lit a s → x = [a] ∧ s = a :: r.
Proof.
  unfold re_lit, re_char. destruct s as [|c s]; [by intros ?%elem_of_nil|].
  case_bool_decide as Hc; [|by intros ?%elem_of_nil].
  subst c. by intros [= -> ->]%list_elem_of_singleton.
Qed.

(** A match of the format cuts the text at its two dashes. *)
Lemma format_regex_inv s Y m d rest :
  (Y, m, d, rest) ∈ format_regex s →
  s = Y ++ 45%N :: m ++ 45%N :: d ++ rest ∧
  Forall (λ c, c ≠ 45%N) Y ∧ Forall (λ c, c ≠ 45%N) m ∧ Forall (λ c, c ≠ 45%N) d.
Proof.
  unfold format_regex.
  intros ([Y' s1] & Hin & HY)%list_elem_of_bind.
  apply list_elem_of_bind in Hin as ([? s2] & Hin & H1).
  apply list_elem_of_bind in Hin as ([m' s3] & Hin & Hm).
  apply list_elem_of_bind in Hin as ([? s4] & Hin & H2).
  apply list_elem_of_bind in Hin as ([d' s5] & Hin & Hd).
  apply list_elem_of_singleton in Hin as [= -> -> -> ->].
  apply re_Y_emits in HY as [-> ?]. apply re_lit_inv in H1 as [_ ->].
  apply re_m_emits in Hm as [-> ?]. apply re_lit_inv in H2 as [_ ->].
  by apply re_dd_emits in Hd as [-> ?].
Qed.

Lemma emits_rest_ascii Q a s x r :
  emits Q a → ascii_text s → (x, r) ∈ a s → ascii_text x ∧ ascii_text r.
Proof. intros Ha Hs [-> _]%Ha. by apply Forall_app. Qed.

Lemma re_d_ascii s : ascii_text s → re_d s = re_d (H := ascii_unicode) s.
Proof.
  intros Hs. unfold re_d, re_char. destruct Hs as [|c s Hc Hs]; [done|].
  by rewrite (chr_decimal_ascii c Hc).
Qed.

Lemma re_seq_ascii Q a a' b b' s :
  emits Q a →
  (∀ t, ascii_text t → a t = a' t) → (∀ t, ascii_text t → b t = b' t) →
  ascii_text s → re_seq a b s = re_seq a' b' s.
Proof.
  intros Hemit Ha Hb Hs. unfold re_seq. rewrite <- (Ha s Hs).
  apply Forall_bind_ext, Forall_forall. intros [x s1] Hx.
  destruct (emits_rest_ascii Q a s x s1 Hemit Hs Hx) as [_ Hs1].
  by rewrite (Hb s1 Hs1).
Qed.

Lemma re_Y_ascii s : ascii_text s → re_Y s = re_Y (H := ascii_unicode) s.
Proof.
  assert (∀ b b', (∀ t, ascii_text t → b t = b' t) →
    ∀ t, ascii_text t → re_seq re_d b t = re_seq (re_d (H := ascii_unicode)) b' t)
    as Hstep.
  { intros b b' Hb t Ht.
    by apply (re_seq_ascii _ _ _ _ _ _ re_d_emits re_d_ascii Hb). }
  revert s. unfold re_Y. do 3 apply Hstep. apply re_d_ascii.
Qed.

Lemma re_dd_ascii s : ascii_text s → re_dd s = re_dd (H := ascii_unicode) s.
Proof.
  intros Hs. unfold re_dd, re_alt. do 2 f_equal.
  eapply re_seq_ascii; [by apply (re_range_emits 1 2)|done|apply re_d_ascii|done].
Qed.

Lemma format_regex_ascii s :
  ascii_text s → format_regex s = format_regex (H := ascii_unicode) s.
Proof.
  intros Hs. unfold format_regex. rewrite <- (re_Y_ascii s Hs).
  apply Forall_bind_ext, Forall_forall. intros [Y s1] [_ Hs1]%(emits_rest_ascii _ _ _ _ _ re_Y_emits Hs).
  apply Forall_bind_ext, Forall_forall.
  intros [? s2] [_ Hs2]%(emits_rest_ascii _ _ _ _ _ (re_lit_emits _) Hs1).
  apply Forall_bind_ext, Forall_forall.
  intros [m s3] [_ Hs3]%(emits_rest_ascii _ _ _ _ _ re_m_emits Hs2).
  apply Forall_bind_ext, Forall_forall.
  intros [? s4] [_ Hs4]%(emits_rest_ascii _ _ _ _ _ (re_lit_emits _) Hs3).
  by rewrite <- (re_dd_ascii s4 Hs4).
Qed.

Lemma strptime_ascii s : ascii_text s → strptime s = strptime (H := ascii_unicode) s.
Proof.
  intros Hs. unfold strptime. rewrite <- (format_regex_ascii s Hs).
  destruct (head (format_regex s)) as [[[[Y m] d] rest]|] eqn:Hhead; [|done].
  apply head_Some_elem_of, format_regex_inv in Hhead as (Heq & _).
  rewrite Heq in Hs.
  apply Forall_app in Hs as [HY [_ Hs]%Forall_cons].
  apply Forall_app in Hs as [Hm [_ Hs]%Forall_cons].
  apply Forall_app in Hs as [Hd _].
  by rewrite <- !int_ascii by done.
Qed.

Lemma Birthday_init_ascii s :
  ascii_text s → Birthday.__init__ s = Birthday.__init__ (H := ascii_unicode) s.
Proof.
  intros Hs. unfold Birthday.__init__, Birthday.set_value.
  by rewrite (strptime_ascii s Hs).
Qed.

Lemma is_valid_phone_ascii s :
  ascii_text s → Phone.is_valid_phone s = Phone.is_valid_phone (H := ascii_unicode) s.
Proof. intros Hs. unfold Phone.is_valid_phone. by rewrite isdigit_ascii. Qed.

Lemma add_phone_ascii n r :
  ascii_text n → Record.add_phone n r = Record.add_phone (H := ascii_unicode) n r.
Proof. intros Hn. by rewrite !add_phone_eq, is_valid_phone_ascii. Qed.

Lemma for_each_add_phone_ascii l r :
  Forall (λ n, ascii_text n) l →
  for_each Record.add_phone l r = for_each (Record.add_phone (H := ascii_unicode)) l r.
Proof.
  intros Hl. revert r. induction Hl as [|n l Hn Hl IH]; intros r; [done|].
  simpl. unfold mbind, method_bind. rewrite (add_phone_ascii n r Hn).
  destruct (Record.add_phone n r) as [[[]|e] r']; [apply IH|done].
Qed.

Lemma Record_init_ascii name phone_numbers birthday :
  Forall (λ n, ascii_text n) (default [] phone_numbers) →
  ascii_text (default [] birthday) →
  Record.__init__ name phone_numbers birthday
  = Record.__init__ (H := ascii_unicode) name phone_numbers birthday.
Proof.
  intros Hp Hb. unfold Record.__init__.
  assert (match birthday with
          | Some v => if bool_decide (v = []) then Ok None
                      else Some <$> Birthday.__init__ v
          | None => Ok None
          end
          = match birthday with
            | Some v => if bool_decide (v = []) then Ok None
                        else Some <$> Birthday.__init__ (H := ascii_unicode) v
            | None => Ok None
            end) as ->.
  { destruct birthday as [v|]; [|done]. by rewrite (Birthday_init_ascii v Hb). }
  destruct (match birthday with Some v => _ | None => _ end) as [b|e];
    unfold_method; [|done].
  destruct phone_numbers as [l|]; [|done]. by rewrite for_each_add_phone_ascii.
Qed.

Lemma split_ascii_text sep s : ascii_text s → Forall (λ p, ascii_text p) (split sep s).
Proof.
  induction 1 as [|c s Hc Hs IH]; simpl; [by repeat constructor|].
  case_bool_decide; [by constructor|].
  destruct (split sep s) as [|p ps]; [by repeat constructor|].
  apply Forall_cons in IH as [Hp Hps]. by repeat constructor.
Qed.

Lemma map_result_int_ascii l :
  Forall (λ p, ascii_text p) l →
  map_result int l = map_result (int (H := ascii_unicode)) l.
Proof.
  induction 1 as [|p l Hp Hl IH]; [done|]. simpl.
  by rewrite (int_ascii p Hp), IH.
Qed.

Lemma days_to_birthday_ascii today r :
  ascii_text (default [] (Birthday.value <$> Record.birthday r)) →
  Record.days_to_birthday today r
  = Record.days_to_birthday (H := ascii_unicode) today r.
Proof.
  intros Hb. unfold Record.days_to_birthday.
  destruct (Record.birthday r) as [b|]; [|done]. simpl in Hb.
  by rewrite (map_result_int_ascii _ (split_ascii_text 45 _ Hb)).
Qed.

End ascii_agreement.

(** ** [days_to_birthday] *)

Section birthday_facts.
Context `{U : Unicode}.

Lemma split_no_sep sep s : Forall (λ c, c ≠ sep) s → split sep s = [s].
Proof.
  induction 1 as [|c s Hc Hs IH]; simpl; [done|].
  by rewrite bool_decide_eq_false_2, IH.
Qed.

Lemma split_app_sep sep a s :
  Forall (λ c, c ≠ sep) a → split sep (a ++ sep :: s) = a :: split sep s.
Proof.
  induction 1 as [|c a Hc Ha IH]; simpl.
  - by rewrite bool_decide_eq_true_2.
  - by rewrite bool_decide_eq_false_2, IH.
Qed.

(** A text [strptime] accepts is three numerals between two dashes, and
    the date they spell exists. *)
Lemma strptime_Ok_inv s dt :
  strptime s = Ok dt →
  ∃ Y m d y mo dd,
    split 45 s = [Y; m; d] ∧
    int Y = Ok y ∧ int m = Ok mo ∧ int d = Ok dd ∧
    datetime._check_date_fields y mo dd = Ok () ∧
    datetime.to_date dt = datetime.Build_date y mo dd.
Proof.
  unfold strptime.
  destruct (head (format_regex s)) as [[[[Y m] d] rest]|] eqn:Hhead; [|done].
  apply head_Some_elem_of, format_regex_inv in Hhead as (-> & HY & Hm & Hd).
  case_bool_decide as Hrest; [|done]. subst rest. rewrite app_nil_r. simpl.
  unfold_method.
  destruct (int Y) as [y|] eqn:HiY; [|done].
  destruct (int m) as [mo|] eqn:Him; [|done].
  destruct (int d) as [dd|] eqn:Hid; [|done]. unfold datetime.new. unfold_method.
  destruct (datetime._check_date_fields y mo dd) as [[]|] eqn:Hcheck; [|done].
  intros [= <-]. exists Y, m, d, y, mo, dd. split_and!; try done.
  by rewrite !split_app_sep, split_no_sep.
Qed.

(** A record without a birthday has no days to count. *)
Lemma days_to_birthday_None today r :
  Record.birthday r = None → Record.days_to_birthday today r = Ok None.
Proof. unfold Record.days_to_birthday. by intros ->. Qed.

(** The year of the birthday is passed to [datetime] as the month, the
    month as the day and the day as the hour: for a birthday in a year
    after 12 the call raises, whatever the date today. *)
Lemma days_to_birthday_year_as_month today r b dt :
  Record.birthday r = Some b →
  strptime (Birthday.value b) = Ok dt →
  datetime.valid_date today = true →
  12 < datetime.year (datetime.to_date dt) →
  Record.days_to_birthday today r = Raise (ValueError "month must be in 1..12").
Proof.
  intros Hb (Y & m & d & y & mo & dd & Hsplit & HY & Hm & Hd & _ & Hdt)%strptime_Ok_inv
    Htoday Hyear.
  rewrite Hdt in Hyear. simpl in Hyear.
  unfold Record.days_to_birthday. rewrite Hb, Hsplit. simpl.
  rewrite HY, Hm, Hd. unfold_method.
  unfold datetime.new, datetime._check_date_fields. unfold_method.
  unfold datetime.valid_date in Htoday.
  apply andb_true_iff in Htoday as [[Hy%bool_decide_eq_true _]%andb_true_iff _].
  rewrite (bool_decide_eq_true_2 _ Hy). simpl.
  by rewrite bool_decide_eq_false_2 by lia.
Qed.

(** C1 fails on the code.  The record of the specification's scenario,
    "John Doe" born "1990-05-15", is built without error, and on every
    day [days_to_birthday] raises [ValueError] for it instead of returning
    the days to the next 15th of May: 1990 is not a month. *)
Theorem days_to_birthday_john_doe_raises (today : datetime.date) :
  datetime.valid_date today = true →
  ∃ john msg,
    Record.__init__ (py "John Doe") (Some [py "1234567890"]) (Some (py "1990-05-15"))
      = Ok john ∧
    Record.days_to_birthday today john = Raise (ValueError msg).
Proof.
  intros Htoday.
  exists (Record.Build (Name.Build (py "John Doe")) [Phone.Build (py "1234567890")]
            (Some (Birthday.Build (py "1990-05-15")))).
  exists "month must be in 1..12"%string.
  split.
  - rewrite Record_init_ascii; [done|by repeat constructor..].
  - eapply days_to_birthday_year_as_month; [done| |done|].
    + simpl. rewrite strptime_ascii by by repeat constructor. by vm_compute.
    + by vm_compute.
Qed.

(** On 2026-11-03 the specification asks for the 193 days to 2027-05-15. *)
Lemma days_to_birthday_john_doe_spec :
  days_to_birthday_spec (datetime.Build_date 2026 11 3) john_doe = Ok (Some 193) ∧
  Record.days_to_birthday (datetime.Build_date 2026 11 3) john_doe
    = Raise (ValueError "month must be in 1..12").
Proof.
  split.
  - unfold days_to_birthday_spec. simpl.
    rewrite strptime_ascii by by repeat constructor. by vm_compute.
  - rewrite days_to_birthday_ascii by by repeat constructor. by vm_compute.
Qed.

(** For a birthday in one of the years 1 to 12 the call returns, with the
    days to another date: on 2026-11-03, for a birthday "0005-03-14", the
    131 days to the 14th of March are reported as the 181 days to the 3rd
    of May. *)
Lemma days_to_birthday_wrong_date :
  ∃ r,
    Record.__init__ (py "X") None (Some (py "0005-03-14")) = Ok r ∧
    days_to_birthday_spec (datetime.Build_date 2026 11 3) r = Ok (Some 131) ∧
    Record.days_to_birthday (datetime.Build_date 2026 11 3) r = Ok (Some 181) ∧
    datetime.days_between (datetime.Build_date 2027 5 3)
      (datetime.Build_date 2026 11 3) = 181.
Proof.
  exists (Record.Build (Name.Build (py "X")) [] (Some (Birthday.Build (py "0005-03-14")))).
  split_and!.
  - rewrite Record_init_ascii; [done|by repeat constructor..].
  - unfold days_to_birthday_spec. simpl.
    rewrite strptime_ascii by by repeat constructor. by vm_compute.
  - rewrite days_to_birthday_ascii by by repeat constructor. by vm_compute.
  - by vm_compute.
Qed.

End birthday_facts.

(** * The theorems at work

    Each theorem above applied to the contact of the specification's
    scenario, with the ASCII-only database and the reference serializer. *)

Lemma john_doe_constructed :
  Record.__init__ (H := ascii_unicode) (py "John Doe") (Some [py "1234567890"])
    (Some (py "1990-05-15")) = Ok john_doe.
Proof. by vm_compute. Qed.

Lemma jane_smith_constructed :
  Record.__init__ (H := ascii_unicode) (py "Jane Smith")
    (Some [py "5555555555"; py "5554444444"]) None = Ok jane_smith.
Proof. by vm_compute. Qed.

Lemma days_to_birthday_john_doe_raises_witness :
  datetime.valid_date (datetime.Build_date 2026 11 3) = true ∧
  ∃ john msg,
    Record.__init__ (H := ascii_unicode) (py "John Doe") (Some [py "1234567890"])
      (Some (py "1990-05-15")) = Ok john ∧
    Record.days_to_birthday (H := ascii_unicode) (datetime.Build_date 2026 11 3) john
      = Raise (ValueError msg).
Proof.
  split; [reflexivity|].
  apply (days_to_birthday_john_doe_raises (U := ascii_unicode)). reflexivity.
Defined.



Lemma find_returns_matches_witness :
  john_doe ∈ AddressBook.find (H := ascii_unicode) (py "john")
               (AddressBook.add_record john_doe empty_book) ∧
  AddressBook.find (H := ascii_unicode) (py "999")
    (AddressBook.add_record john_doe empty_book) = [].
Proof.
  destruct (find_returns_matches (H := ascii_unicode) (py "john") empty_book)
    as (_ & _ & Hscenario).
  destruct (Hscenario john_doe eq_refl eq_refl) as [Hin Hempty].
  split; [exact Hin|exact (proj2 (Hempty eq_refl))].
Defined.

Lemma iterator_batches_witness :
  0 < 2 ∧
  ∃ batches,
    AddressBook.iterator 2 five_contacts = Ok batches ∧
    length <$> batches = [2; 2; 1]%nat.
Proof.
  assert (0 < 2) as Hpos by reflexivity.
  split; [exact Hpos|].
  destruct (iterator_batches 2 five_contacts Hpos)
    as (batches & Hiter & _ & _ & _ & Hsizes).
  exists batches. split; [exact Hiter|exact (Hsizes eq_refl eq_refl)].
Defined.

Lemma Phone_init_iff_ten_numeric_witness :
  ∃ p, Phone.__init__ (H := ascii_unicode) (py "1234567890") = Ok p ∧
       Phone.__str__ p = py "1234567890".
Proof.
  apply (Phone_init_iff_ten_numeric (H := ascii_unicode) (py "1234567890")).
  apply (is_valid_phone_spec (H := ascii_unicode)). reflexivity.
Defined.

Lemma add_phone_twice_duplicate_witness :
  Phone.is_valid_phone (H := ascii_unicode) (py "5555555555") = true ∧
  ∃ e,
    Record.add_phone (H := ascii_unicode) (py "5555555555")
      (state_after (Record.add_phone (H := ascii_unicode) (py "5555555555")) john_doe)
    = (Raise e,
       state_after (Record.add_phone (H := ascii_unicode) (py "5555555555")) john_doe) ∧
    kind_of e = Some DuplicatePhone.
Proof.
  split; [reflexivity|].
  destruct (add_phone_twice_duplicate (H := ascii_unicode) john_doe
              (py "5555555555") eq_refl) as (_ & e & Hcall & Hkind & _).
  exists e. split; [exact Hcall|exact Hkind].
Defined.

Lemma edit_phone_not_found_witness :
  (py "5555555555" ∉ phone_values john_doe) ∧
  ∃ e,
    Record.edit_phone (H := ascii_unicode) (py "5555555555") (py "9999999999") john_doe
    = (Raise e, john_doe) ∧
    kind_of e = Some NotFound.
Proof.
  assert (py "5555555555" ∉ phone_values john_doe) as Habsent
    by (apply (bool_decide_unpack _); vm_compute; exact I).
  split; [exact Habsent|].
  exact (edit_phone_not_found (H := ascii_unicode) john_doe (py "5555555555")
           (py "9999999999") Habsent).
Defined.

Lemma edit_phone_replaces_in_place_witness :
  (reachable (H := ascii_unicode) john_doe ∧
   py "1234567890" ∈ phone_values john_doe ∧
   Phone.is_valid_phone (H := ascii_unicode) (py "9999999999") = true ∧
   py "9999999999" ∉ phone_values john_doe) ∧
  ∃ r',
    Record.edit_phone (H := ascii_unicode) (py "1234567890") (py "9999999999") john_doe
    = (Ok (), r') ∧
    Record.find_phone (py "1234567890") r' = None ∧
    Record.find_phone (py "9999999999") r' = Some (Phone.Build (py "9999999999")).
Proof.
  assert (reachable (H := ascii_unicode) john_doe) as Hreach.
  { apply (reach_init (py "John Doe") (Some [py "1234567890"])
             (Some (py "1990-05-15"))). vm_compute. reflexivity. }
  assert (py "1234567890" ∈ phone_values john_doe) as Hold
    by (apply (bool_decide_unpack _); vm_compute; exact I).
  assert (py "9999999999" ∉ phone_values john_doe) as Hnew
    by (apply (bool_decide_unpack _); vm_compute; exact I).
  split; [repeat split; [exact Hreach|exact Hold|exact Hnew]|].
  destruct (edit_phone_replaces_in_place (H := ascii_unicode) john_doe
              (py "1234567890") (py "9999999999") Hreach Hold eq_refl Hnew)
    as (i & r' & Hcall & _ & _ & _ & _ & _ & _ & Hgone & Hfound).
  exists r'. split; [exact Hcall|]. split; [exact Hgone|exact Hfound].
Defined.

Lemma phones_unique_invariant_witness :
  phones_unique john_doe ∧
  phones_unique
    (state_after (Record.edit_phone (H := ascii_unicode) (py "1234567890")
                    (py "9999999999")) john_doe) ∧
  phones_unique
    (state_after (Record.remove_phone (py "1234567890")) john_doe).
Proof.
  destruct (phones_unique_invariant (H := ascii_unicode))
    as (Hinit & _ & Hedit & Hremove & _).
  assert (phones_unique john_doe) as Hjohn.
  { apply (Hinit (py "John Doe") (Some [py "1234567890"]) (Some (py "1990-05-15"))).
    vm_compute. reflexivity. }
  split; [exact Hjohn|].
  split; [exact (Hedit _ _ _ Hjohn)|exact (Hremove _ _ Hjohn)].
Defined.

Lemma edit_phone_to_itself_witness :
  (reachable (H := ascii_unicode) john_doe ∧
   py "1234567890" ∈ phone_values john_doe) ∧
  ∃ e,
    Record.edit_phone (H := ascii_unicode) (py "1234567890") (py "1234567890") john_doe
    = (Raise e, john_doe) ∧
    kind_of e = Some DuplicatePhone.
Proof.
  assert (reachable (H := ascii_unicode) john_doe) as Hreach.
  { apply (reach_init (py "John Doe") (Some [py "1234567890"])
             (Some (py "1990-05-15"))). vm_compute. reflexivity. }
  assert (py "1234567890" ∈ phone_values john_doe) as Hheld
    by (apply (bool_decide_unpack _); vm_compute; exact I).
  split; [split; [exact Hreach|exact Hheld]|].
  exact (edit_phone_to_itself (H := ascii_unicode) john_doe (py "1234567890")
           Hreach Hheld).
Defined.

(** * Further properties *)

(** ** The methods of [Record] *)

Section record_extras.
Context `{Unicode}.

Lemma list_find_snoc_not {A} (P : A → Prop) `{∀ x, Decision (P x)} (l : list A) x :
  ¬ P x → list_find P (l ++ [x]) = list_find P l.
Proof.
  intros Hx. induction l as [|y l IH]; simpl.
  - by rewrite decide_False.
  - case_decide; [done|]. by rewrite IH.
Qed.

Lemma list_find_snoc_first {A} (P : A → Prop) `{∀ x, Decision (P x)} (l : list A) x :
  Forall (λ y, ¬ P y) l → P x → list_find P (l ++ [x]) = Some (length l, x).
Proof.
  intros Hl Hx. induction Hl as [|y l Hy Hl IH]; simpl.
  - by rewrite decide_True.
  - rewrite decide_False by done. by rewrite IH.
Qed.

Lemma list_find_delete_other {A} (P : A → Prop) `{∀ x, Decision (P x)}
    (l : list A) i x :
  l !! i = Some x → ¬ P x →
  snd <$> list_find P (delete i l) = snd <$> list_find P l.
Proof.
  revert i. induction l as [|y l IH]; intros [|i] Hi Hx; simplify_eq/=.
  - rewrite decide_False by done. by destruct (list_find P l) as [[??]|].
  - case_decide; [done|]. specialize (IH i Hi Hx).
    destruct (list_find P (delete i l)) as [[??]|], (list_find P l) as [[??]|];
      by simplify_eq/=.
Qed.

Lemma filter_all {A} (P : A → Prop) `{∀ x, Decision (P x)} (l : list A) :
  Forall P l → filter P l = l.
Proof.
  induction 1 as [|y l Hy Hl IH]; [done|]. by rewrite filter_cons_True, IH.
Qed.

Lemma delete_filter_ne {A} `{EqDecision A} (l : list A) i x :
  NoDup l → l !! i = Some x → delete i l = filter (λ y, y ≠ x) l.
Proof.
  intros Hl. revert i. induction Hl as [|y l Hy Hl IH]; intros [|i] Hi; simplify_eq/=.
  - rewrite filter_cons_False by (intros Hne; by apply Hne).
    symmetry. apply filter_all. rewrite Forall_forall. by intros z Hz ->.
  - rewrite filter_cons_True
      by (intros ->; apply Hy; by eapply list_elem_of_lookup_2).
    f_equal. by apply IH.
Qed.

Lemma set_phones_id (r : Record.t) : Record.set_phones (Record.phones r) r = r.
Proof. by destruct r. Qed.

Lemma find_phone_held (r : Record.t) (n : str) :
  n ∈ phone_values r → Record.find_phone n r = Some (Phone.Build n).
Proof.
  unfold Record.find_phone. intros Hn.
  by destruct (find_phone_ref_elem_of n r Hn) as [i ->].
Qed.

Lemma find_phone_absent (r : Record.t) (n : str) :
  n ∉ phone_values r → Record.find_phone n r = None.
Proof. unfold Record.find_phone. intros Hn%find_phone_ref_None. by rewrite Hn. Qed.

(** X1.  [find_phone n] returns the phone of value [n] when the record
    holds that number and [None] when it does not; a phone it returns is
    one of the record's and has the value asked for. *)
Theorem find_phone_iff (r : Record.t) (n : str) :
  (n ∈ phone_values r → Record.find_phone n r = Some (Phone.Build n)) ∧
  (n ∉ phone_values r → Record.find_phone n r = None) ∧
  (∀ p, Record.find_phone n r = Some p → p ∈ Record.phones r ∧ Phone.value p = n).
Proof.
  split_and!; [apply find_phone_held|apply find_phone_absent|].
  unfold Record.find_phone.
  - intros p Hp. destruct (Record.find_phone_ref n r) as [[i q]|] eqn:Hf; [|done].
    simpl in Hp. injection Hp as ->.
    apply find_phone_ref_Some in Hf as (Hi & Hv & _).
    split; [by eapply list_elem_of_lookup_2|done].
Qed.

(** X2.  [add_phone] with a valid number the record does not hold succeeds:
    the new phone goes last, name, birthday and the other phones stay, and
    [find_phone] then finds the new number and answers as before for every
    other one. *)
Theorem add_phone_appends (r : Record.t) (n : str) :
  Phone.is_valid_phone n = true →
  n ∉ phone_values r →
  ∃ r',
    Record.add_phone n r = (Ok (), r') ∧
    Record.phones r' = Record.phones r ++ [Phone.Build n] ∧
    Record.name r' = Record.name r ∧
    Record.birthday r' = Record.birthday r ∧
    Record.find_phone n r' = Some (Phone.Build n) ∧
    (∀ m, m ≠ n → Record.find_phone m r' = Record.find_phone m r).
Proof.
  intros Hv Hn. eexists. rewrite add_phone_eq, Hv, bool_decide_eq_false_2 by done.
  split_and!; try done.
  - apply find_phone_held. unfold phone_values. simpl. rewrite fmap_app. set_solver.
  - intros m Hm. unfold Record.find_phone, Record.find_phone_ref. simpl.
    rewrite list_find_snoc_not; [done|]. simpl. by intros ->.
Qed.

(** X3.  [add_phone] with a text that is not 10 digits raises the error of
    kind [InvalidValue] and leaves the record as it was; the number is
    validated before it is compared with the phones of the record. *)
Theorem add_phone_invalid (r : Record.t) (n : str) :
  ¬ ten_numeric n →
  ∃ e, Record.add_phone n r = (Raise e, r) ∧ kind_of e = Some InvalidValue.
Proof.
  rewrite <- is_valid_phone_spec. intros Hv%not_true_is_false.
  rewrite add_phone_eq, Hv. by eexists.
Qed.

(** X4.  In a record the program builds, [edit_phone old new] with both
    numbers in the record raises the error of kind [DuplicatePhone] and
    changes nothing, whether [new] is [old] or another phone. *)
Theorem edit_phone_duplicate (r : Record.t) (old new : str) :
  reachable r →
  old ∈ phone_values r →
  new ∈ phone_values r →
  ∃ e, Record.edit_phone old new r = (Raise e, r) ∧ kind_of e = Some DuplicatePhone.
Proof.
  intros [_ Hvalid]%reachable_invariants Hold Hnew.
  destruct (find_phone_ref_elem_of old r Hold) as [i Hf].
  unfold phones_valid in Hvalid. rewrite Forall_forall in Hvalid.
  rewrite edit_phone_eq, Hf, (Hvalid new Hnew), bool_decide_eq_true_2 by done.
  by eexists.
Qed.

(** X5.  [edit_phone old new] with [old] in the record and [new] not 10
    digits raises the error of kind [InvalidValue] and changes nothing. *)
Theorem edit_phone_invalid_new (r : Record.t) (old new : str) :
  old ∈ phone_values r →
  ¬ ten_numeric new →
  ∃ e, Record.edit_phone old new r = (Raise e, r) ∧ kind_of e = Some InvalidValue.
Proof.
  rewrite <- is_valid_phone_spec. intros Hold Hv%not_true_is_false.
  destruct (find_phone_ref_elem_of old r Hold) as [i Hf].
  rewrite edit_phone_eq, Hf, Hv. by eexists.
Qed.

(** X6.  Editing a number and editing it back restores the record: in a
    record the program builds that holds [old], for a valid [new] it does
    not hold, [edit_phone old new] followed by [edit_phone new old]
    succeeds twice and leaves the record exactly as it was. *)
Theorem edit_phone_round_trip (r : Record.t) (old new : str) :
  reachable r →
  old ∈ phone_values r →
  Phone.is_valid_phone new = true →
  new ∉ phone_values r →
  ∃ r',
    Record.edit_phone old new r = (Ok (), r') ∧
    Record.edit_phone new old r' = (Ok (), r).
Proof.
  intros [Hunique Hvalid]%reachable_invariants Hold Hv Hnew.
  destruct (find_phone_ref_elem_of old r Hold) as [i Hf].
  apply find_phone_ref_Some in Hf as Hf'. destruct Hf' as (Hi & _ & _).
  assert (i < length (Record.phones r))%nat as Hlt by by eapply lookup_lt_Some.
  assert (old ≠ new) as Hne by (by intros ->).
  eexists. split.
  { rewrite edit_phone_eq, Hf, Hv. by rewrite bool_decide_eq_false_2. }
  rewrite edit_phone_eq.
  assert (Record.find_phone_ref new
            (Record.set_phones (<[i:=Phone.Build new]> (Record.phones r)) r)
          = Some (i, Phone.Build new)) as ->.
  { apply find_phone_ref_Some. simpl. split_and!.
    - by apply list_lookup_insert_eq.
    - done.
    - intros j q Hj Hji Hq. rewrite list_lookup_insert_ne in Hj by lia.
      apply Hnew. unfold phone_values. rewrite <- Hq.
      apply list_elem_of_fmap. exists q. split; [done|].
      by eapply list_elem_of_lookup_2. }
  unfold phones_valid in Hvalid. rewrite Forall_forall in Hvalid.
  rewrite (Hvalid old Hold). rewrite bool_decide_eq_false_2.
  - unfold Record.set_phones. simpl.
    rewrite list_insert_insert_eq, list_insert_id by done. by destruct r.
  - unfold phone_values. simpl. rewrite list_fmap_insert.
    apply not_elem_of_insert_old; [done| |done].
    by rewrite list_lookup_fmap, Hi.
Qed.

(** X7.  [remove_phone] with a number the record does not hold raises the
    error of kind [NotFound] and leaves the record as it was. *)
Theorem remove_phone_not_found (r : Record.t) (n : str) :
  n ∉ phone_values r →
  ∃ e, Record.remove_phone n r = (Raise e, r) ∧ kind_of e = Some NotFound.
Proof.
  intros Hn%find_phone_ref_None. rewrite remove_phone_eq, Hn. by eexists.
Qed.

(** X8.  In a record the program builds, [remove_phone] with a number the
    record holds succeeds and removes that phone only: the other numbers
    keep their order, the list is one shorter, name and birthday stay;
    afterwards [find_phone] no longer finds the number and answers as
    before for every other one. *)
Theorem remove_phone_removes (r : Record.t) (n : str) :
  reachable r →
  n ∈ phone_values r →
  ∃ r',
    Record.remove_phone n r = (Ok (), r') ∧
    phone_values r' = filter (λ v, v ≠ n) (phone_values r) ∧
    S (length (Record.phones r')) = length (Record.phones r) ∧
    Record.name r' = Record.name r ∧
    Record.birthday r' = Record.birthday r ∧
    Record.find_phone n r' = None ∧
    (∀ m, m ≠ n → Record.find_phone m r' = Record.find_phone m r).
Proof.
  intros [Hunique _]%reachable_invariants Hn.
  destruct (find_phone_ref_elem_of n r Hn) as [i Hf].
  apply find_phone_ref_Some in Hf as Hf'. destruct Hf' as (Hi & _ & _).
  assert (i < length (Record.phones r))%nat as Hlt by by eapply lookup_lt_Some.
  assert (phone_values r !! i = Some n) as Hvi
    by (unfold phone_values; by rewrite list_lookup_fmap, Hi).
  assert (phone_values (Record.set_phones (delete i (Record.phones r)) r)
          = filter (λ v, v ≠ n) (phone_values r)) as Hvalues.
  { unfold phone_values at 1. simpl. rewrite list_fmap_delete.
    by apply delete_filter_ne. }
  eexists. rewrite remove_phone_eq, Hf. split_and!; try done.
  - simpl. rewrite length_delete by (by eexists). lia.
  - apply find_phone_absent. rewrite Hvalues, list_elem_of_filter. by intros [? _].
  - intros m Hm. unfold Record.find_phone, Record.find_phone_ref. simpl.
    eapply list_find_delete_other; [done|]. simpl. by intros ->.
Qed.

(** X9.  Adding a number and removing it restores the record: for a valid
    number the record does not hold, [add_phone n] followed by
    [remove_phone n] succeeds twice and leaves the record exactly as it
    was. *)
Theorem add_remove_round_trip (r : Record.t) (n : str) :
  Phone.is_valid_phone n = true →
  n ∉ phone_values r →
  ∃ r',
    Record.add_phone n r = (Ok (), r') ∧
    Record.remove_phone n r' = (Ok (), r).
Proof.
  intros Hv Hn. eexists. rewrite add_phone_eq, Hv, bool_decide_eq_false_2 by done.
  split; [done|]. rewrite remove_phone_eq. unfold Record.find_phone_ref. simpl.
  rewrite list_find_snoc_first; [|
    rewrite Forall_forall; intros p Hp Hpn; apply Hn; rewrite <- Hpn;
    by apply list_elem_of_fmap_2|done].
  unfold Record.set_phones. simpl. rewrite delete_middle, app_nil_r.
  by destruct r.
Qed.

End record_extras.

(** ** The constructors of [Record] and [Birthday] *)

Section constructor_extras.
Context `{Unicode}.

Lemma phone_values_snoc (r : Record.t) (n : list N) :
  phone_values (Record.set_phones (Record.phones r ++ [Phone.Build n]) r)
  = phone_values r ++ [n].
Proof. unfold phone_values. simpl. by rewrite fmap_app. Qed.

(** The loop of the constructor succeeds exactly on valid, pairwise
    different numbers that the record does not hold yet, and appends them
    in order. *)
Lemma for_each_add_phone_Ok (l : list (list N)) (r r' : Record.t) :
  for_each Record.add_phone l r = (Ok (), r') ↔
    Forall (λ n, Phone.is_valid_phone n = true) l ∧ NoDup l ∧
    (∀ n, n ∈ l → n ∉ phone_values r) ∧
    r' = Record.set_phones (Record.phones r ++ (Phone.Build <$> l)) r.
Proof.
  revert r. induction l as [|n l IH]; intros r.
  - simpl. unfold mret, method_ret. rewrite app_nil_r, set_phones_id. split.
    + intros [= <-]. split_and!; [constructor|constructor| |done].
      by intros n ?%elem_of_nil.
    + by intros (_ & _ & _ & ->).
  - simpl. unfold mbind, method_bind. rewrite add_phone_eq.
    destruct (Phone.is_valid_phone n) eqn:Hv.
    2: { split; [done|]. intros (Hall & _). apply Forall_cons in Hall as [Hn _].
         congruence. }
    case_bool_decide as Hin.
    { split; [done|]. intros (_ & _ & Hdis & _). exfalso.
      by apply (Hdis n); [left|]. }
    rewrite IH, phone_values_snoc. simpl. rewrite <- app_assoc. simpl.
    rewrite Forall_cons, NoDup_cons. split.
    + intros (Hall & Hnd & Hdis & ->). split_and!; try done.
      * intros Hnl. apply (Hdis n Hnl), elem_of_app. right. by left.
      * intros m [->|Hm]%elem_of_cons; [done|].
        intros Hmr. apply (Hdis m Hm), elem_of_app. by left.
    + intros ([_ Hall] & [Hnl Hnd] & Hdis & ->). split_and!; try done.
      intros m Hm [Hmr| ->%list_elem_of_singleton]%elem_of_app; [|done].
      by apply (Hdis m); [right|].
Qed.

Lemma for_each_add_phone_Ok_unit (l : list (list N)) (r r' : Record.t) (u : ()) :
  for_each Record.add_phone l r = (Ok u, r') ↔
  for_each Record.add_phone l r = (Ok (), r').
Proof. by destruct u. Qed.

Lemma int_raises_ValueError (s : list N) (e : exn) :
  int s = Raise e → ∃ msg, e = ValueError msg.
Proof.
  unfold int. destruct (match strip s with [] => _ | _ => _ end); [done|].
  intros [= <-]. eauto.
Qed.

Lemma datetime_new_raises_ValueError (y mo dd h mi s us : Z) (e : exn) :
  datetime.new y mo dd h mi s us = Raise e → ∃ msg, e = ValueError msg.
Proof.
  unfold datetime.new, datetime._check_date_fields, datetime._check_time_fields.
  unfold_method. repeat case_bool_decide; simpl; intros; simplify_eq; eauto.
Qed.

Lemma strptime_raises_ValueError (s : list N) (e : exn) :
  strptime s = Raise e → ∃ msg, e = ValueError msg.
Proof.
  unfold strptime.
  destruct (head (format_regex s)) as [[[[Y m] d] rest]|]; [|intros [= <-]; eauto].
  case_bool_decide; simpl; [|intros [= <-]; eauto]. unfold_method.
  destruct (int Y) as [y|] eqn:HY; [|intros [= <-]; by eapply int_raises_ValueError].
  destruct (int m) as [mo|] eqn:Hm; [|intros [= <-]; by eapply int_raises_ValueError].
  destruct (int d) as [dd|] eqn:Hd; [|intros [= <-]; by eapply int_raises_ValueError].
  apply datetime_new_raises_ValueError.
Qed.

Lemma Birthday_init_Ok (s : list N) (b : Birthday.t) :
  Birthday.__init__ s = Ok b ↔ (∃ dt, strptime s = Ok dt) ∧ b = Birthday.Build s.
Proof.
  unfold Birthday.__init__, Birthday.set_value.
  destruct (strptime s) as [dt|[]]; split; try done;
    try (by intros [[? ?] _]).
  - intros [= <-]. eauto.
  - by intros [_ ->].
Qed.

(** X10.  [Record(name, phone_numbers, birthday)] succeeds exactly when
    every given number is valid, no number is given twice, and the
    birthday is absent, empty or a text [strptime] accepts; the record then
    has the name, the numbers in the order given, and the birthday text
    (none for an empty one). *)
Theorem Record_init_iff (name : list N) (phone_numbers : option (list (list N)))
    (birthday : option (list N)) (r : Record.t) :
  Record.__init__ name phone_numbers birthday = Ok r ↔
    Forall (λ n, Phone.is_valid_phone n = true) (default [] phone_numbers) ∧
    NoDup (default [] phone_numbers) ∧
    (default [] birthday = [] ∨ ∃ dt, strptime (default [] birthday) = Ok dt) ∧
    r = Record.Build (Name.Build name) (Phone.Build <$> default [] phone_numbers)
          (if bool_decide (default [] birthday = []) then None
           else Some (Birthday.Build (default [] birthday))).
Proof.
  unfold Record.__init__.
  assert (∀ b, (match phone_numbers with
     | Some l =>
         if bool_decide (l = []) then Ok (Record.Build (Name.__init__ name) [] b)
         else match for_each Record.add_phone l
                      (Record.Build (Name.__init__ name) [] b) with
              | (Ok _, self') => Ok self'
              | (Raise e, _) => Raise e
              end
     | None => Ok (Record.Build (Name.__init__ name) [] b)
     end = Ok r) ↔
    Forall (λ n, Phone.is_valid_phone n = true) (default [] phone_numbers) ∧
    NoDup (default [] phone_numbers) ∧
    r = Record.Build (Name.Build name) (Phone.Build <$> default [] phone_numbers) b)
    as Hphones.
  { intros b. destruct phone_numbers as [l|]; simpl.
    2: { split; [intros [= <-]|intros (_ & _ & ->)]; [|done].
         split_and!; [constructor|constructor|done]. }
    case_bool_decide as Hl.
    { subst l. split; [intros [= <-]|intros (_ & _ & ->)]; [|done].
      split_and!; [constructor|constructor|done]. }
    destruct (for_each Record.add_phone l _) as [[u|e] r'] eqn:Hloop.
    - apply for_each_add_phone_Ok_unit, for_each_add_phone_Ok in Hloop
        as (Hall & Hnd & _ & ->).
      split; [by intros [= <-]|by intros (_ & _ & ->)].
    - split; [done|]. intros (Hall & Hnd & _).
      assert (for_each Record.add_phone l (Record.Build (Name.__init__ name) [] b)
              = (Ok (), Record.set_phones ([] ++ (Phone.Build <$> l))
                          (Record.Build (Name.__init__ name) [] b))) as Hok.
      { apply for_each_add_phone_Ok. split_and!; try done.
        intros n _. unfold phone_values. simpl. apply not_elem_of_nil. }
      congruence. }
  destruct birthday as [v|]; simpl.
  2: { unfold_method. rewrite Hphones.
       split; [intros (? & ? & ->)|intros (? & ? & _ & ->)]; split_and!; auto. }
  case_bool_decide as Hv.
  { unfold_method. rewrite Hphones.
    split; [intros (? & ? & ->)|intros (? & ? & _ & ->)]; split_and!; auto. }
  destruct (Birthday.__init__ v) as [b|e] eqn:Hb; unfold_method.
  - apply Birthday_init_Ok in Hb as [Hdt ->]. rewrite Hphones.
    split; [intros (? & ? & ->)|intros (? & ? & _ & ->)]; split_and!; auto.
  - split; [done|]. intros (_ & _ & [?|Hdt] & _); [done|].
    assert (Birthday.__init__ v = Ok (Birthday.Build v)) by by apply Birthday_init_Ok.
    congruence.
Qed.

(** X11.  Every phone of every record the program builds (by the
    constructor, [add_phone], [edit_phone] and [remove_phone], whether the
    calls return or raise) holds exactly 10 digits. *)
Theorem phones_valid_invariant (r : Record.t) :
  reachable r → ∀ p, p ∈ Record.phones r → ten_numeric (Phone.value p).
Proof.
  intros [_ Hvalid]%reachable_invariants p Hp. apply is_valid_phone_spec.
  unfold phones_valid in Hvalid. rewrite Forall_forall in Hvalid.
  apply Hvalid. unfold phone_values. by apply list_elem_of_fmap_2.
Qed.

Lemma check_date_fields_valid (y mo dd : Z) :
  datetime._check_date_fields y mo dd = Ok () ↔
  datetime.valid_date (datetime.Build_date y mo dd) = true.
Proof.
  unfold datetime._check_date_fields, datetime.valid_date. simpl.
  repeat case_bool_decide; simpl; split; done.
Qed.

(** X12.  A text [Birthday] accepts is stored and displayed unchanged, and
    has the form Y-m-d: three numerals without dashes that [int] reads as
    the year, month and day of a date that exists.  Every refusal is an
    error of kind [InvalidValue]. *)
Theorem Birthday_accepts_only_dates (s : list N) :
  (∀ b, Birthday.__init__ s = Ok b →
     Birthday.__str__ b = s ∧
     ∃ Y m d y mo dd,
       s = Y ++ 45%N :: m ++ 45%N :: d ∧
       Forall (λ c, c ≠ 45%N) Y ∧ Forall (λ c, c ≠ 45%N) m ∧
       Forall (λ c, c ≠ 45%N) d ∧
       int Y = Ok y ∧ int m = Ok mo ∧ int d = Ok dd ∧
       datetime.valid_date (datetime.Build_date y mo dd) = true) ∧
  (∀ e, Birthday.__init__ s = Raise e → kind_of e = Some InvalidValue).
Proof.
  split.
  - intros b [[dt Hdt] ->]%Birthday_init_Ok. split; [done|].
    revert Hdt. unfold strptime.
    destruct (head (format_regex s)) as [[[[Y m] d] rest]|] eqn:Hhead; [|done].
    apply head_Some_elem_of, format_regex_inv in Hhead as (-> & HY & Hm & Hd).
    case_bool_decide as Hrest; [|done]. subst rest. rewrite app_nil_r. simpl.
    unfold_method.
    destruct (int Y) as [y|] eqn:HiY; [|done].
    destruct (int m) as [mo|] eqn:Him; [|done].
    destruct (int d) as [dd|] eqn:Hid; [|done]. unfold datetime.new. unfold_method.
    destruct (datetime._check_date_fields y mo dd) as [[]|] eqn:Hcheck; [|done].
    intros _. exists Y, m, d, y, mo, dd. split_and!; try done.
    by apply check_date_fields_valid.
  - intros e. unfold Birthday.__init__, Birthday.set_value.
    destruct (strptime s) as [dt|e'] eqn:Hs; [done|].
    apply strptime_raises_ValueError in Hs as [msg ->]. by intros [= <-].
Qed.

End constructor_extras.

(** ** [Birthday] on dates in ISO format *)

(** The groups of the format after the year and its dash. *)
Definition md_regex `{Unicode} (t : list N) : list (list N * list N * list N) :=
  '(m, s3) ← re_m t; '(_, s4) ← re_lit 45 s3; '(d, s5) ← re_dd s4; [(m, d, s5)].

(** With the ASCII-only database: the text of month [mo] and day [dd] is
    matched whole by the first match, made of digits, and read back as
    [mo] and [dd]. *)
Definition md_check (mo dd : Z) : bool :=
  forallb ascii_isdigit (two_digits mo ++ two_digits dd) &&
  match head (md_regex (H := ascii_unicode) (two_digits mo ++ 45%N :: two_digits dd)) with
  | Some (m, d, []) =>
      bool_decide (m = two_digits mo) && bool_decide (d = two_digits dd) &&
      match int (H := ascii_unicode) m, int (H := ascii_unicode) d with
      | Ok a, Ok b => bool_decide (a = mo) && bool_decide (b = dd)
      | _, _ => false
      end
  | _ => false
  end.

(** The text of the year [y] is four digits that read back as [y]. *)
Definition year_check (y : Z) : bool :=
  match four_digits y with
  | [c1; c2; c3; c4] =>
      ascii_isdigit c1 && ascii_isdigit c2 && ascii_isdigit c3 && ascii_isdigit c4
  | _ => false
  end &&
  match int (H := ascii_unicode) (four_digits y) with
  | Ok a => bool_decide (a = y)
  | _ => false
  end.

Lemma md_check_all :
  forallb (λ mo, forallb (md_check mo) (seqZ 1 31)) (seqZ 1 12) = true.
Proof. by vm_compute. Qed.

Lemma year_check_all : forallb year_check (seqZ 1 9999) = true.
Proof. by vm_compute. Qed.

Lemma md_check_true (mo dd : Z) : 1 ≤ mo ≤ 12 → 1 ≤ dd ≤ 31 → md_check mo dd = true.
Proof.
  intros Hmo Hdd. pose proof md_check_all as Hall.
  rewrite forallb_forall in Hall.
  specialize (Hall mo). rewrite forallb_forall in Hall.
  apply Hall; apply list_elem_of_In, elem_of_seqZ; lia.
Qed.

Lemma year_check_true (y : Z) : 1 ≤ y ≤ 9999 → year_check y = true.
Proof.
  intros Hy. pose proof year_check_all as Hall. rewrite forallb_forall in Hall.
  apply Hall, list_elem_of_In, elem_of_seqZ. lia.
Qed.

Lemma fmap_list_bind {A B C} (f : B → C) (g : A → list B) (l : list A) :
  f <$> (l ≫= g) = l ≫= λ x, f <$> g x.
Proof.
  induction l as [|x l IH]; [done|]. by rewrite !bind_cons, fmap_app, IH.
Qed.

Lemma format_regex_year_digits (c1 c2 c3 c4 : N) (t : list N) :
  ascii_isdigit c1 = true → ascii_isdigit c2 = true →
  ascii_isdigit c3 = true → ascii_isdigit c4 = true →
  format_regex (H := ascii_unicode) (c1 :: c2 :: c3 :: c4 :: 45%N :: t)
  = (λ '(m, d, s5), ([c1; c2; c3; c4], m, d, s5)) <$> md_regex (H := ascii_unicode) t.
Proof.
  intros H1 H2 H3 H4.
  unfold format_regex, md_regex, re_Y, re_seq, re_d, re_char. simpl.
  unfold ascii_decimal. rewrite H1. simpl. rewrite H2. simpl. rewrite H3. simpl.
  rewrite H4. simpl. rewrite !app_nil_r, fmap_list_bind.
  apply list_bind_ext; [|done]. intros [m s3]. rewrite fmap_list_bind.
  apply list_bind_ext; [|done]. intros [? s4]. rewrite fmap_list_bind.
  apply list_bind_ext; [|done]. by intros [d s5].
Qed.

Lemma days_in_month_le_31 (y mo : Z) : datetime._days_in_month y mo ≤ 31.
Proof.
  unfold datetime._days_in_month. destruct (_ && _); [lia|].
  destruct (Z.to_nat mo) as [|[|[|[|[|[|[|[|[|[|[|[|[|n]]]]]]]]]]]]]; simpl; lia.
Qed.

(** With the ASCII-only database, [strptime] reads the ISO text of a date
    that exists back as that date. *)
Lemma strptime_isoformat_ascii (d : datetime.date) :
  datetime.valid_date d = true →
  strptime (H := ascii_unicode) (isoformat d) = Ok (datetime.Build d 0 0 0 0) ∧
  ascii_text (isoformat d).
Proof.
  destruct d as [y mo dd]. unfold datetime.valid_date.
  cbn [datetime.year datetime.month datetime.day].
  intros [[Hy%bool_decide_eq_true Hmo%bool_decide_eq_true]%andb_true_iff
          Hdd%bool_decide_eq_true]%andb_true_iff.
  unfold datetime.MINYEAR, datetime.MAXYEAR in Hy.
  pose proof (days_in_month_le_31 y mo) as Hdim.
  pose proof (year_check_true y Hy) as Hyear.
  pose proof (md_check_true mo dd Hmo ltac:(lia)) as Hmd.
  unfold year_check in Hyear. unfold md_check in Hmd.
  unfold isoformat. cbn [datetime.year datetime.month datetime.day].
  remember (two_digits mo ++ 45%N :: two_digits dd) as t eqn:Ht.
  destruct (four_digits y) as [|c1 [|c2 [|c3 [|c4 [|c5 Y]]]]] eqn:HY;
    try (by destruct Hyear).
  apply andb_true_iff in Hyear as [Hdigits HintY].
  apply andb_true_iff in Hdigits as [[[H1 H2]%andb_true_iff H3]%andb_true_iff H4].
  apply andb_true_iff in Hmd as [Hmdigits Hmd].
  destruct (int (H := ascii_unicode) [c1; c2; c3; c4]) as [a|] eqn:HiY; [|done].
  apply bool_decide_eq_true in HintY as ->.
  change ([c1; c2; c3; c4] ++ 45%N :: t) with (c1 :: c2 :: c3 :: c4 :: 45%N :: t).
  split.
  - unfold strptime. rewrite format_regex_year_digits by done.
    destruct (md_regex (H := ascii_unicode) t) as [|[[m d] rest] l]; [done|].
    cbn [fmap list_fmap head] in *. destruct rest; [|done].
    apply andb_true_iff in Hmd as [Hmd Hints].
    apply andb_true_iff in Hmd as [->%bool_decide_eq_true ->%bool_decide_eq_true].
    rewrite bool_decide_eq_true_2 by done. cbn [negb]. rewrite HiY.
    destruct (int (H := ascii_unicode) (two_digits mo)) as [a|]; [|done].
    destruct (int (H := ascii_unicode) (two_digits dd)) as [b|]; [|done].
    apply andb_true_iff in Hints as [->%bool_decide_eq_true ->%bool_decide_eq_true].
    unfold_method. unfold datetime.new.
    assert (datetime._check_date_fields y mo dd = Ok ()) as ->.
    { apply check_date_fields_valid. unfold datetime.valid_date.
      cbn [datetime.year datetime.month datetime.day].
      unfold datetime.MINYEAR, datetime.MAXYEAR.
      by rewrite !bool_decide_eq_true_2. }
    done.
  - assert (∀ c, ascii_isdigit c = true → is_ascii c = true) as Hascii.
    { intros c [Hlo Hhi%N.leb_le]%andb_true_iff. apply N.ltb_lt. lia. }
    subst t. unfold two_digits in *. cbn [app forallb] in Hmdigits.
    repeat (apply andb_true_iff in Hmdigits as [? Hmdigits]).
    repeat constructor; by apply Hascii.
Qed.

Section isoformat_extras.
Context `{Unicode}.

(** X13.  [Birthday] accepts the ISO text YYYY-MM-DD of every date that
    exists (years 1 to 9999), and [strptime] reads the text back as that
    date. *)
Theorem Birthday_accepts_isoformat (d : datetime.date) :
  datetime.valid_date d = true →
  Birthday.__init__ (isoformat d) = Ok (Birthday.Build (isoformat d)) ∧
  datetime.to_date <$> strptime (isoformat d) = Ok d.
Proof.
  intros [Hs Ha]%strptime_isoformat_ascii.
  unfold Birthday.__init__, Birthday.set_value.
  by rewrite (strptime_ascii _ Ha), Hs.
Qed.

End isoformat_extras.

(** ** [days_to_birthday], case by case *)

(** 1 for a leap year, else 0. *)
Definition leap_day (y : Z) : Z := if datetime._is_leap y then 1 else 0.

Lemma days_before_year_succ (y : Z) :
  datetime._days_before_year (y + 1) = datetime._days_before_year y + 365 + leap_day y.
Proof.
  unfold datetime._days_before_year, leap_day, datetime._is_leap.
  replace (y + 1 - 1) with y by lia.
  repeat case_bool_decide; simpl; Z.div_mod_to_equations; lia.
Qed.

Lemma leap_days_adjacent (y : Z) : leap_day y + leap_day (y + 1) ≤ 1.
Proof.
  unfold leap_day, datetime._is_leap.
  repeat case_bool_decide; simpl; Z.div_mod_to_equations; lia.
Qed.

Lemma month_cases (m : Z) :
  1 ≤ m ≤ 12 →
  m = 1 ∨ m = 2 ∨ m = 3 ∨ m = 4 ∨ m = 5 ∨ m = 6 ∨
  m = 7 ∨ m = 8 ∨ m = 9 ∨ m = 10 ∨ m = 11 ∨ m = 12.
Proof. lia. Qed.

(** Destructs a month in 1..12 into its twelve values. *)
Ltac each_month H :=
  apply month_cases in H;
  destruct H as [->|[->|[->|[->|[->|[->|[->|[->|[->|[->|[->| ->]]]]]]]]]]].

(** The day of the year of a date: days before its month plus its day. *)
Definition day_of_year (y m d : Z) : Z := datetime._days_before_month y m + d.

Lemma day_of_year_range (y m d : Z) :
  1 ≤ m ≤ 12 → 1 ≤ d ≤ datetime._days_in_month y m →
  1 ≤ day_of_year y m d ≤ 365 + leap_day y.
Proof.
  intros Hm. unfold day_of_year, datetime._days_before_month,
    datetime._days_in_month, leap_day.
  each_month Hm; destruct (datetime._is_leap y); simpl; lia.
Qed.

Lemma day_of_year_month_lt (y m1 d1 m2 d2 : Z) :
  1 ≤ m1 ≤ 12 → 1 ≤ m2 ≤ 12 → m1 < m2 →
  d1 ≤ datetime._days_in_month y m1 → 1 ≤ d2 →
  day_of_year y m1 d1 < day_of_year y m2 d2.
Proof.
  intros Hm1 Hm2. unfold day_of_year, datetime._days_before_month,
    datetime._days_in_month.
  each_month Hm1; each_month Hm2; destruct (datetime._is_leap y); simpl; lia.
Qed.

Lemma day_of_year_next_year (y m d : Z) :
  1 ≤ m ≤ 12 →
  day_of_year (y + 1) m d + leap_day y ≤ day_of_year y m d + 1.
Proof.
  intros Hm. pose proof (leap_days_adjacent y).
  unfold day_of_year, datetime._days_before_month, leap_day in *.
  each_month Hm; destruct (datetime._is_leap y), (datetime._is_leap (y + 1));
    simpl in *; lia.
Qed.

Lemma toordinal_eq (y m d : Z) :
  datetime.toordinal (datetime.Build_date y m d)
  = datetime._days_before_year y + day_of_year y m d.
Proof. unfold datetime.toordinal, datetime._ymd2ord, day_of_year. simpl. lia. Qed.

(** From a date to a date of the same year that is not before it there are
    at most 365 days. *)
Lemma days_between_same_year (y m1 d1 m2 d2 : Z) :
  datetime.valid_date (datetime.Build_date y m1 d1) = true →
  datetime.valid_date (datetime.Build_date y m2 d2) = true →
  datetime.date_gt (datetime.Build_date y m1 d1) (datetime.Build_date y m2 d2) = false →
  0 ≤ datetime.days_between (datetime.Build_date y m2 d2) (datetime.Build_date y m1 d1)
    ≤ 365.
Proof.
  unfold datetime.valid_date, datetime.date_gt, datetime.days_between. simpl.
  rewrite !andb_true_iff, !bool_decide_eq_true.
  intros [[_ Hm1] Hd1] [[_ Hm2] Hd2] Hgt. rewrite !toordinal_eq.
  pose proof (day_of_year_range y m1 d1 Hm1 Hd1).
  pose proof (day_of_year_range y m2 d2 Hm2 Hd2).
  assert (leap_day y ≤ 1) by (unfold leap_day; by destruct (datetime._is_leap y)).
  destruct (decide (m1 < m2)) as [Hlt|Hge].
  { pose proof (day_of_year_month_lt y m1 d1 m2 d2 Hm1 Hm2 Hlt ltac:(lia) ltac:(lia)).
    lia. }
  rewrite (bool_decide_eq_false_2 (y < y)), (bool_decide_eq_true_2 (y = y)) in Hgt
    by lia.
  destruct (decide (m1 = m2)) as [->|Hne].
  - rewrite (bool_decide_eq_false_2 (m2 < m2)), (bool_decide_eq_true_2 (m2 = m2)) in Hgt
      by lia.
    simpl in Hgt. apply bool_decide_eq_false in Hgt. unfold day_of_year in *. lia.
  - rewrite (bool_decide_eq_true_2 (m2 < m1)) in Hgt by lia. done.
Qed.

(** From a date to the date of a given month and day in the next year,
    when that month and day are already past this year, there are between
    1 and 365 days. *)
Lemma days_between_next_year (y m1 d1 m2 d2 : Z) :
  datetime.valid_date (datetime.Build_date y m1 d1) = true →
  datetime.valid_date (datetime.Build_date y m2 d2) = true →
  datetime.date_gt (datetime.Build_date y m1 d1) (datetime.Build_date y m2 d2) = true →
  1 ≤ datetime.days_between (datetime.Build_date (y + 1) m2 d2)
        (datetime.Build_date y m1 d1) ≤ 365.
Proof.
  unfold datetime.valid_date, datetime.date_gt, datetime.days_between. simpl.
  rewrite !andb_true_iff, !bool_decide_eq_true.
  intros [[_ Hm1] Hd1] [[_ Hm2] Hd2] Hgt. rewrite !toordinal_eq.
  rewrite days_before_year_succ.
  pose proof (day_of_year_range y m1 d1 Hm1 Hd1).
  pose proof (day_of_year_next_year y m2 d2 Hm2).
  assert (1 ≤ day_of_year (y + 1) m2 d2).
  { unfold day_of_year, datetime._days_before_month.
    each_month Hm2; destruct (datetime._is_leap (y + 1)); simpl; lia. }
  assert (day_of_year y m2 d2 < day_of_year y m1 d1).
  { destruct (decide (m2 < m1)) as [Hlt|Hge].
    - apply day_of_year_month_lt; try done; lia.
    - rewrite (bool_decide_eq_false_2 (y < y)), (bool_decide_eq_true_2 (y = y)),
        (bool_decide_eq_false_2 (m2 < m1)) in Hgt by lia.
      simpl in Hgt. apply andb_true_iff in Hgt as [<-%bool_decide_eq_true Hd%bool_decide_eq_true].
      unfold day_of_year in *. lia. }
  lia.
Qed.

Lemma days_in_month_ge_28 (y m : Z) : 1 ≤ m ≤ 12 → 28 ≤ datetime._days_in_month y m.
Proof.
  intros Hm. unfold datetime._days_in_month.
  each_month Hm; destruct (datetime._is_leap y); simpl; lia.
Qed.

(** [datetime(ty, y, mo, dd)], the call [days_to_birthday] makes for a
    birthday of year [y], month [mo] and day [dd]. *)
Lemma datetime_new_shifted (ty y mo dd : Z) :
  1 ≤ ty ≤ 9999 → 1 ≤ y → 1 ≤ mo ≤ 12 → 1 ≤ dd →
  datetime.new ty y mo dd 0 0 0 =
    if bool_decide (y ≤ 12) then
      if bool_decide (dd ≤ 23)
      then Ok (datetime.Build (datetime.Build_date ty y mo) dd 0 0 0)
      else Raise (ValueError "hour must be in 0..23")
    else Raise (ValueError "month must be in 1..12").
Proof.
  intros Hty Hy Hmo Hdd.
  unfold datetime.new, datetime._check_date_fields, datetime._check_time_fields,
    datetime.MINYEAR, datetime.MAXYEAR.
  pose proof (days_in_month_ge_28 ty y) as Hdim.
  unfold_method.
  repeat (case_bool_decide; simpl); try done; exfalso; lia.
Qed.

Section days_to_birthday_extras.
Context `{Unicode}.

(** What [days_to_birthday] computes for a birthday [strptime] read as the
    date [y]-[mo]-[dd]. *)
Lemma days_to_birthday_eq today r b dt :
  Record.birthday r = Some b →
  strptime (Birthday.value b) = Ok dt →
  ∃ y mo dd,
    datetime.to_date dt = datetime.Build_date y mo dd ∧
    datetime.valid_date (datetime.Build_date y mo dd) = true ∧
    Record.days_to_birthday today r =
      (dt1 ← datetime.new (datetime.year today) y mo dd 0 0 0;
       next ← (if datetime.date_gt today (datetime.to_date dt1)
               then dt2 ← datetime.new (datetime.year today + 1) y mo dd 0 0 0;
                    Ok (datetime.to_date dt2)
               else Ok (datetime.to_date dt1));
       Ok (Some (datetime.days_between next today))).
Proof.
  intros Hb (Y & m & d & y & mo & dd & Hsplit & HY & Hm & Hd & Hcheck & Hdt)%strptime_Ok_inv.
  exists y, mo, dd. split; [done|]. split; [by apply check_date_fields_valid|].
  unfold Record.days_to_birthday. rewrite Hb, Hsplit. simpl.
  rewrite HY, Hm, Hd. done.
Qed.

(** X14.  For a birthday [Birthday] stored, read as year, month and day:
    when the year is after 12, or the day after 23, [days_to_birthday]
    raises [ValueError] on every day, because the year is passed to
    [datetime] as the month, the month as the day and the day as the
    hour. *)
Theorem days_to_birthday_raises (today : datetime.date) (r : Record.t)
    (b : Birthday.t) (dt : datetime.t) :
  Record.birthday r = Some b →
  strptime (Birthday.value b) = Ok dt →
  datetime.valid_date today = true →
  12 < datetime.year (datetime.to_date dt) ∨ 23 < datetime.day (datetime.to_date dt) →
  ∃ msg, Record.days_to_birthday today r = Raise (ValueError msg).
Proof.
  intros Hb Hdt Htoday Hlate.
  destruct (days_to_birthday_eq today r b dt Hb Hdt) as (y & mo & dd & Hd & Hvalid & ->).
  rewrite Hd in Hlate. simpl in Hlate.
  unfold datetime.valid_date in Hvalid, Htoday. simpl in Hvalid.
  apply andb_true_iff in Hvalid as [[Hy%bool_decide_eq_true Hmo%bool_decide_eq_true]%andb_true_iff Hdd%bool_decide_eq_true].
  apply andb_true_iff in Htoday as [[Hty%bool_decide_eq_true _]%andb_true_iff _].
  unfold datetime.MINYEAR, datetime.MAXYEAR in *.
  rewrite (datetime_new_shifted (datetime.year today)) by lia.
  case_bool_decide; [|by eexists].
  rewrite bool_decide_eq_false_2 by lia. by eexists.
Qed.

(** X15.  For a birthday [Birthday] stored with a year up to 12 and a day
    up to 23, on a day before the year 9999, [days_to_birthday] returns
    the days to the next date, today included, whose month is the
    birthday's year and whose day is the birthday's month: a number from 0
    to 365.  The date is this year's unless that has passed, and on the
    date itself the number is 0. *)
Theorem days_to_birthday_small_year (today : datetime.date) (r : Record.t)
    (b : Birthday.t) (dt : datetime.t) :
  Record.birthday r = Some b →
  strptime (Birthday.value b) = Ok dt →
  datetime.valid_date today = true →
  datetime.year today < 9999 →
  datetime.year (datetime.to_date dt) ≤ 12 →
  datetime.day (datetime.to_date dt) ≤ 23 →
  ∃ next n,
    Record.days_to_birthday today r = Ok (Some n) ∧
    n = datetime.days_between next today ∧
    0 ≤ n ≤ 365 ∧
    datetime.valid_date next = true ∧
    datetime.month next = datetime.year (datetime.to_date dt) ∧
    datetime.day next = datetime.month (datetime.to_date dt) ∧
    (datetime.year next = datetime.year today ∨
     datetime.year next = datetime.year today + 1) ∧
    datetime.year next
    = (if datetime.date_gt today
            (datetime.Build_date (datetime.year today)
               (datetime.year (datetime.to_date dt))
               (datetime.month (datetime.to_date dt)))
       then datetime.year today + 1 else datetime.year today) ∧
    (datetime.month today = datetime.year (datetime.to_date dt) →
     datetime.day today = datetime.month (datetime.to_date dt) →
     n = 0).
Proof.
  intros Hb Hdt Htoday Hty Hy12 Hd23.
  destruct (days_to_birthday_eq today r b dt Hb Hdt) as (y & mo & dd & Hd & Hvalid & ->).
  rewrite Hd in *. simpl in Hy12, Hd23. simpl.
  destruct today as [ty tm td]. simpl in *.
  pose proof Hvalid as Hvalid'. pose proof Htoday as Htoday'.
  unfold datetime.valid_date in Hvalid', Htoday'. simpl in *.
  apply andb_true_iff in Hvalid' as [[Hy%bool_decide_eq_true Hmo%bool_decide_eq_true]%andb_true_iff Hdd%bool_decide_eq_true].
  apply andb_true_iff in Htoday' as [[Hty'%bool_decide_eq_true _]%andb_true_iff _].
  unfold datetime.MINYEAR, datetime.MAXYEAR in *.
  assert (∀ year, 1 ≤ year ≤ 9999 →
            datetime.valid_date (datetime.Build_date year y mo) = true) as Hnext.
  { intros year Hyear. unfold datetime.valid_date. simpl.
    pose proof (days_in_month_ge_28 year y ltac:(lia)).
    unfold datetime.MINYEAR, datetime.MAXYEAR.
    by rewrite !bool_decide_eq_true_2 by lia. }
  rewrite !datetime_new_shifted by lia.
  rewrite !bool_decide_eq_true_2 by lia. unfold_method.
  destruct (datetime.date_gt _ _) eqn:Hgt; simpl.
  - exists (datetime.Build_date (ty + 1) y mo). eexists. split_and!; try done.
    + pose proof (days_between_next_year ty tm td y mo Htoday (Hnext ty Hty') Hgt).
      lia.
    + pose proof (days_between_next_year ty tm td y mo Htoday (Hnext ty Hty') Hgt).
      lia.
    + apply Hnext. lia.
    + by right.
    + intros -> ->. exfalso. revert Hgt. unfold datetime.date_gt. simpl.
      repeat (case_bool_decide; simpl); try done; lia.
  - exists (datetime.Build_date ty y mo). eexists. split_and!; try done.
    + pose proof (days_between_same_year ty tm td y mo Htoday (Hnext ty Hty') Hgt).
      lia.
    + pose proof (days_between_same_year ty tm td y mo Htoday (Hnext ty Hty') Hgt).
      lia.
    + by apply Hnext.
    + by left.
    + intros -> ->. unfold datetime.days_between. lia.
Qed.

End days_to_birthday_extras.

(** ** [AddressBook]: records in and out *)

Lemma dict_get_setitem {V} (k k' : list N) (v : V) (d : dict V) :
  dict_get k' (dict_setitem k v d) = if bool_decide (k' = k) then Some v else dict_get k' d.
Proof.
  induction d as [|[k0 v0] d IH]; simpl.
  - case_bool_decide; by simplify_eq; repeat case_bool_decide.
  - repeat (case_bool_decide; simplify_eq/=); try done.
    all: rewrite IH; by repeat (case_bool_decide; simplify_eq/=).
Qed.

Lemma dict_keys_setitem_present {V} (k : list N) (v : V) (d : dict V) :
  k ∈ dict_keys d → dict_keys (dict_setitem k v d) = dict_keys d.
Proof.
  unfold dict_keys. induction d as [|[k0 v0] d IH]; simpl.
  - by intros ?%elem_of_nil.
  - intros Hk. case_bool_decide; simplify_eq/=; [done|].
    apply elem_of_cons in Hk as [?|Hk]; [done|]. by rewrite IH.
Qed.

Lemma dict_get_delitem {V} (k k' : list N) (d : dict V) :
  dict_get k' (dict_delitem k d) = if bool_decide (k' = k) then None else dict_get k' d.
Proof.
  unfold dict_delitem, dict in *. induction d as [|[k0 v0] d IH].
  - simpl. by case_bool_decide.
  - rewrite filter_cons. cbn [fst dict_get].
    destruct (decide (k0 ≠ k)) as [Hk0|Hk0]; cbn [dict_get].
    + rewrite IH. by repeat (case_bool_decide; simplify_eq).
    + apply dec_stable in Hk0. subst k0. rewrite IH.
      by repeat (case_bool_decide; simplify_eq).
Qed.

Lemma dict_keys_delitem {V} (k : list N) (d : dict V) :
  dict_keys (dict_delitem k d) = filter (λ k', k' ≠ k) (dict_keys d).
Proof.
  unfold dict_keys, dict_delitem, dict in *. induction d as [|[k0 v0] d IH]; [done|].
  rewrite fmap_cons, !filter_cons. cbn [fst].
  destruct (decide (k0 ≠ k)); [rewrite fmap_cons|]; by rewrite IH.
Qed.

Lemma dict_delitem_absent {V} (k : list N) (d : dict V) :
  k ∉ dict_keys d → dict_delitem k d = d.
Proof.
  intros Hk. apply filter_all. rewrite Forall_forall. intros [k0 v0] Hin Heq.
  simpl in Heq. subst k0.
  apply Hk. unfold dict_keys. by apply (list_elem_of_fmap_2 fst) in Hin.
Qed.

Lemma delete_data (name : list N) (ab : AddressBook.t) :
  AddressBook.data (AddressBook.delete name ab) = dict_delitem name (AddressBook.data ab).
Proof.
  unfold AddressBook.delete, dict_contains. case_bool_decide; [done|].
  by rewrite dict_delitem_absent.
Qed.

(** X16.  After [add_record record] the book holds [record] under the
    record's name and every other name as before; a name that was present
    keeps its place (the record under it is replaced), a new name goes
    last; the counter goes up by one in both cases. *)
Theorem add_record_lookup (record : Record.t) (ab : AddressBook.t) :
  dict_get (Name.value (Record.name record))
    (AddressBook.data (AddressBook.add_record record ab)) = Some record ∧
  (∀ k, k ≠ Name.value (Record.name record) →
     dict_get k (AddressBook.data (AddressBook.add_record record ab))
     = dict_get k (AddressBook.data ab)) ∧
  (Name.value (Record.name record) ∈ dict_keys (AddressBook.data ab) →
     dict_keys (AddressBook.data (AddressBook.add_record record ab))
     = dict_keys (AddressBook.data ab)) ∧
  (Name.value (Record.name record) ∉ dict_keys (AddressBook.data ab) →
     AddressBook.data (AddressBook.add_record record ab)
     = AddressBook.data ab ++ [(Name.value (Record.name record), record)]) ∧
  AddressBook.record_id (AddressBook.add_record record ab)
  = AddressBook.record_id ab + 1 ∧
  AddressBook.file (AddressBook.add_record record ab) = AddressBook.file ab.
Proof.
  unfold AddressBook.add_record. simpl. split_and!; try done.
  - by rewrite dict_get_setitem, bool_decide_eq_true_2.
  - intros k Hk. by rewrite dict_get_setitem, bool_decide_eq_false_2.
  - apply dict_keys_setitem_present.
  - apply dict_setitem_new.
Qed.

(** X17.  After [delete name] the book holds nothing under [name] and
    every other name as before, in the same order; the counter and the
    file stay; deleting a name the book does not hold changes nothing and
    raises nothing. *)
Theorem delete_lookup (name : list N) (ab : AddressBook.t) :
  dict_get name (AddressBook.data (AddressBook.delete name ab)) = None ∧
  (∀ k, k ≠ name →
     dict_get k (AddressBook.data (AddressBook.delete name ab))
     = dict_get k (AddressBook.data ab)) ∧
  dict_keys (AddressBook.data (AddressBook.delete name ab))
  = filter (λ k, k ≠ name) (dict_keys (AddressBook.data ab)) ∧
  AddressBook.record_id (AddressBook.delete name ab) = AddressBook.record_id ab ∧
  AddressBook.file (AddressBook.delete name ab) = AddressBook.file ab ∧
  (name ∉ dict_keys (AddressBook.data ab) → AddressBook.delete name ab = ab).
Proof.
  rewrite delete_data. split_and!.
  - by rewrite dict_get_delitem, bool_decide_eq_true_2.
  - intros k Hk. by rewrite dict_get_delitem, bool_decide_eq_false_2.
  - apply dict_keys_delitem.
  - unfold AddressBook.delete. by destruct (dict_contains _ _).
  - unfold AddressBook.delete. by destruct (dict_contains _ _).
  - intros Hn. unfold AddressBook.delete, dict_contains.
    by rewrite bool_decide_eq_false_2.
Qed.

(** X18.  Adding a record under a new name and deleting that name gives
    back the mapping as it was; the counter keeps the increment. *)
Theorem add_delete_round_trip (record : Record.t) (ab : AddressBook.t) :
  Name.value (Record.name record) ∉ dict_keys (AddressBook.data ab) →
  AddressBook.data
    (AddressBook.delete (Name.value (Record.name record))
       (AddressBook.add_record record ab))
  = AddressBook.data ab ∧
  AddressBook.record_id
    (AddressBook.delete (Name.value (Record.name record))
       (AddressBook.add_record record ab))
  = AddressBook.record_id ab + 1.
Proof.
  intros Hnew. unfold AddressBook.delete, AddressBook.add_record, dict_contains. simpl.
  rewrite dict_setitem_new by done.
  rewrite bool_decide_eq_true_2
    by (unfold dict_keys; rewrite fmap_app; apply elem_of_app; right; by left).
  simpl. split; [|done]. unfold dict_delitem, dict in *.
  rewrite filter_app, filter_cons_False
    by (simpl; by intros Hne).
  rewrite filter_nil, app_nil_r. by apply dict_delitem_absent.
Qed.

(** ** [AddressBook]: what every book satisfies *)

Lemma dict_keys_alter {V} (f : V → V) (k : list N) (d : dict V) :
  dict_keys (dict_alter f k d) = dict_keys d.
Proof.
  unfold dict_keys, dict_alter. rewrite <- list_fmap_compose.
  apply list_fmap_ext. intros _ [k0 v0] _. simpl. by case_bool_decide.
Qed.

Lemma dict_setitem_elem_of {V} (k k' : list N) (v v' : V) (d : dict V) :
  (k', v') ∈ dict_setitem k v d → (k', v') = (k, v) ∨ (k', v') ∈ d.
Proof.
  induction d as [|[k0 v0] d IH]; simpl.
  - intros ->%list_elem_of_singleton. by left.
  - case_bool_decide.
    + intros [->|Hin]%elem_of_cons; [by left|right; by right].
    + intros [->|Hin]%elem_of_cons; [right; by left|].
      destruct (IH Hin) as [->|Hd]; [by left|right; by right].
Qed.

Lemma dict_setitem_NoDup {V} (k : list N) (v : V) (d : dict V) :
  NoDup (dict_keys d) → NoDup (dict_keys (dict_setitem k v d)).
Proof.
  intros Hd. destruct (decide (k ∈ dict_keys d)) as [Hin|Hnew].
  - by rewrite dict_keys_setitem_present.
  - rewrite dict_setitem_new by done. unfold dict_keys in *. rewrite fmap_app.
    apply NoDup_app. split_and!; [done| |apply NoDup_singleton].
    intros k' Hk' ->%list_elem_of_singleton. done.
Qed.

Lemma dict_setitem_length {V} (k : list N) (v : V) (d : dict V) :
  (length (dict_setitem k v d) ≤ S (length d))%nat.
Proof.
  induction d as [|[k0 v0] d IH]; simpl; [lia|]. case_bool_decide; simpl; lia.
Qed.

(** X19.  In every book got from an empty one by [add_record], [delete]
    and changes to the records that keep their names, no name stands
    twice, every record stands under its own name, and the counter is
    above the number of records. *)
Theorem book_invariants (ab : AddressBook.t) :
  book_reachable ab →
  NoDup (dict_keys (AddressBook.data ab)) ∧
  (∀ k r, (k, r) ∈ AddressBook.data ab → Name.value (Record.name r) = k) ∧
  Z.of_nat (length (AddressBook.data ab)) < AddressBook.record_id ab.
Proof.
  induction 1 as [file|record ab _ (Hkeys & Hname & Hid)|name ab _ (Hkeys & Hname & Hid)
                  |f k ab Hf _ (Hkeys & Hname & Hid)].
  - simpl. split_and!; [apply NoDup_nil_2|by intros k r ?%elem_of_nil|lia].
  - unfold AddressBook.add_record. simpl. split_and!.
    + by apply dict_setitem_NoDup.
    + intros k r [[= -> ->]|Hin]%dict_setitem_elem_of; [done|by apply Hname].
    + pose proof (dict_setitem_length (Name.value (Record.name record)) record
                    (AddressBook.data ab)). lia.
  - rewrite delete_data. split_and!.
    + rewrite dict_keys_delitem. by apply NoDup_filter.
    + intros k r [_ Hin]%list_elem_of_filter. by apply Hname.
    + assert (AddressBook.record_id (AddressBook.delete name ab)
              = AddressBook.record_id ab) as ->
        by (unfold AddressBook.delete; by destruct (dict_contains _ _)).
      pose proof (length_filter (λ kv : list N * Record.t, kv.1 ≠ name)
                    (AddressBook.data ab)).
      unfold dict_delitem, dict in *. lia.
  - unfold book_alter. simpl. split_and!.
    + by rewrite dict_keys_alter.
    + intros k' r ([k0 r0] & Heq & Hin)%list_elem_of_fmap.
      apply Hname in Hin. simpl in Heq. case_bool_decide; simplify_eq; [|done].
      by rewrite Hf.
    + unfold dict_alter. rewrite length_fmap. lia.
Qed.

(** ** [AddressBook.find]: particular queries *)

Section find_extras.
Context `{Unicode}.

Lemma find_elem_of (query : list N) (ab : AddressBook.t) (r : Record.t) :
  r ∈ AddressBook.find query ab ↔
  r ∈ dict_values (AddressBook.data ab) ∧ (0 < hits query r)%nat.
Proof.
  rewrite find_eq, list_elem_of_bind. split.
  - intros (r' & [-> Hn]%elem_of_replicate & Hr). split; [done|lia].
  - intros [Hr Hm]. exists r. split; [|done].
    apply elem_of_replicate. split; [done|lia].
Qed.

Lemma substring_refl (s : list N) : substring s s.
Proof. exists [], []. by rewrite app_nil_r. Qed.

(** X20.  The empty query matches every name and every phone: [find]
    then lists every record of the book, in dictionary order, once and
    once more for each of its phones. *)
Theorem find_empty_query (ab : AddressBook.t) :
  AddressBook.find [] ab
  = dict_values (AddressBook.data ab) ≫= λ r, replicate (S (length (Record.phones r))) r.
Proof.
  rewrite find_eq. apply list_bind_ext; [|done]. intros r. unfold hits.
  rewrite decide_True.
  - rewrite filter_all; [done|]. apply Forall_forall. intros p _. by exists [], (Phone.value p).
  - unfold name_matches. rewrite (lower_ascii []) by done.
    by exists [], (lower (Name.value (Record.name r))).
Qed.

(** X21.  A record of the book is found by its name, in whatever case
    the query is written, and by each of its phone numbers. *)
Theorem find_by_name_or_phone (ab : AddressBook.t) (r : Record.t) :
  r ∈ dict_values (AddressBook.data ab) →
  (∀ query, lower query = lower (Name.value (Record.name r)) →
     r ∈ AddressBook.find query ab) ∧
  (∀ p, p ∈ Record.phones r → r ∈ AddressBook.find (Phone.value p) ab).
Proof.
  intros Hr. split.
  - intros query Hq. apply find_elem_of. split; [done|]. apply hits_pos. left.
    unfold name_matches. rewrite Hq. apply substring_refl.
  - intros p Hp. apply find_elem_of. split; [done|]. apply hits_pos. right.
    exists p. split; [done|]. apply substring_refl.
Qed.

End find_extras.

(** ** [AddressBook.iterator]: particular batch sizes *)

Lemma iterator_positive (batch_size : Z) (ab : AddressBook.t) :
  0 < batch_size →
  ∃ m, AddressBook.iterator batch_size ab
       = Ok ((λ k, take (Z.to_nat batch_size)
                     (drop (k * Z.to_nat batch_size) (dict_values (AddressBook.data ab))))
             <$> seq 0 m) ∧
       batch_count m (Z.to_nat batch_size) (length (dict_values (AddressBook.data ab))).
Proof.
  intros Hpos. unfold AddressBook.iterator.
  set (records := dict_values (AddressBook.data ab)).
  destruct (range_positive_step (Z.of_nat (length records)) batch_size)
    as (m & -> & Hm); [lia..|].
  rewrite Nat2Z.id in Hm. exists m. split; [|done]. unfold_method.
  rewrite <- list_fmap_compose. f_equal.
  apply list_fmap_ext. intros _ k _. simpl.
  rewrite slice_forward by lia. do 2 f_equal. lia.
Qed.

Lemma iterator_negative (batch_size : Z) (ab : AddressBook.t) :
  batch_size < 0 → AddressBook.iterator batch_size ab = Ok [].
Proof.
  intros Hneg. unfold AddressBook.iterator, range.
  rewrite !bool_decide_eq_false_2 by lia. done.
Qed.

Lemma singleton_batches {A} (l : list A) :
  (λ k, take 1 (drop (k * 1) l)) <$> seq 0 (length l) = (λ x, [x]) <$> l.
Proof.
  induction l as [|x l IH]; [done|].
  change (seq 0 (length (x :: l))) with (0 :: seq 1 (length l))%nat.
  rewrite !fmap_cons, <- fmap_S_seq, <- list_fmap_compose, <- IH.
  reflexivity.
Qed.

(** X22.  [iterator] with batch size 0 raises ValueError (from [range]),
    whatever the book holds; with a negative batch size it raises nothing
    and yields no batch at all, so the records are not listed. *)
Theorem iterator_nonpositive (ab : AddressBook.t) :
  (∃ msg, AddressBook.iterator 0 ab = Raise (ValueError msg)) ∧
  (∀ batch_size, batch_size < 0 → AddressBook.iterator batch_size ab = Ok []).
Proof.
  split; [by eexists|]. intros batch_size. apply iterator_negative.
Qed.

(** X23.  With batch size 1 [iterator] yields the records one by one;
    with a batch size of at least the number of records it yields one
    batch with all of them; over an empty book it yields no batch, for
    every batch size but 0. *)
Theorem iterator_batch_sizes (ab : AddressBook.t) :
  AddressBook.iterator 1 ab = Ok ((λ r, [r]) <$> dict_values (AddressBook.data ab)) ∧
  (∀ batch_size,
     AddressBook.data ab ≠ [] →
     Z.of_nat (length (AddressBook.data ab)) ≤ batch_size →
     AddressBook.iterator batch_size ab = Ok [dict_values (AddressBook.data ab)]) ∧
  (∀ batch_size,
     AddressBook.data ab = [] → batch_size ≠ 0 →
     AddressBook.iterator batch_size ab = Ok []).
Proof.
  split_and!.
  - destruct (iterator_positive 1 ab) as (m & -> & [Hlt Hle]); [lia|].
    change (Z.to_nat 1) with 1%nat in *.
    assert (m = length (dict_values (AddressBook.data ab))) as -> by lia.
    by rewrite singleton_batches.
  - intros batch_size Hne Hlen.
    assert (0 < length (dict_values (AddressBook.data ab)))%nat as Hn.
    { unfold dict_values. rewrite length_fmap.
      destruct (AddressBook.data ab); [done|simpl; lia]. }
    assert (length (dict_values (AddressBook.data ab)) ≤ Z.to_nat batch_size)%nat as Hb
      by (unfold dict_values in *; rewrite length_fmap in *; lia).
    destruct (iterator_positive batch_size ab) as (m & -> & [Hlt Hle]); [lia|].
    assert (m = 1%nat) as -> by nia.
    simpl. by rewrite take_ge.
  - intros batch_size Hempty Hne.
    destruct (decide (batch_size < 0)) as [Hneg|Hpos]; [by apply iterator_negative|].
    destruct (iterator_positive batch_size ab) as (m & -> & [Hlt Hle]); [lia|].
    rewrite Hempty in *. simpl in *.
    assert (m = 0%nat) as -> by nia. done.
Qed.

(** ** [dump], [load] and the constructor: files missing, unreadable, rewritten *)

Section persistence_extras.
Context `{Pickle (Z * dict Record.t)}.







End persistence_extras.

(** ** [Record.__str__] and [Controller.do_search] *)

Lemma substring_app_l (sub s pre : list N) : substring sub s → substring sub (pre ++ s).
Proof. intros (a & b & ->). exists (pre ++ a), b. by rewrite <- app_assoc. Qed.

Lemma substring_app_r (sub s post : list N) : substring sub s → substring sub (s ++ post).
Proof. intros (a & b & ->). exists a, (b ++ post). by rewrite <- !app_assoc. Qed.

Lemma join_elem_of (sep x : list N) (l : list (list N)) :
  x ∈ l → substring x (join sep l).
Proof.
  induction l as [|y l IH]; [by intros ?%elem_of_nil|].
  intros [->|Hin]%elem_of_cons.
  - destruct l; simpl; [apply substring_refl|apply substring_app_r, substring_refl].
  - destruct l as [|z l]; [by apply elem_of_nil in Hin|].
    change (join sep (y :: z :: l)) with (y ++ sep ++ join sep (z :: l)).
    by apply substring_app_l, substring_app_l, IH.
Qed.

(** X28.  The line [__str__] gives for a record starts with
    "Contact name: " and the name, and shows every phone number of the
    record; a record without phones and birthday reads
    "Contact name: <name>, phones: , birthday: None". *)
Theorem str_shows_name_and_phones (r : Record.t) :
  py "Contact name: " ++ Name.value (Record.name r) `prefix_of` Record.__str__ r ∧
  (∀ p, p ∈ Record.phones r → substring (Phone.value p) (Record.__str__ r)) ∧
  (Record.phones r = [] → Record.birthday r = None →
   Record.__str__ r
   = py "Contact name: " ++ Name.value (Record.name r) ++ py ", phones: , birthday: None").
Proof.
  unfold Record.__str__. split_and!.
  - rewrite (app_assoc (py "Contact name: ")). by eexists.
  - intros p Hp. do 3 apply substring_app_l. apply substring_app_r.
    apply join_elem_of. by apply (list_elem_of_fmap_2 Phone.__str__) in Hp.
  - intros -> ->. reflexivity.
Qed.

Section search_extras.
Context `{Unicode}.

(** X29.  [do_search] prints the one line "No matching records found."
    exactly when no record of the book matches the query by name or by
    phone; otherwise it prints the line of each record [find] returns, in
    that order, a record found more than once as often as found. *)
Theorem do_search_prints (line : list N) (c : Controller.t) :
  ((∀ r, r ∈ dict_values (AddressBook.data (Controller.address_book c)) →
         ¬ name_matches line r ∧ ∀ p, p ∈ Record.phones r → ¬ phone_matches line p) →
   Controller.do_search line c = [py "No matching records found."]) ∧
  (∀ r, r ∈ dict_values (AddressBook.data (Controller.address_book c)) →
        (name_matches line r ∨ ∃ p, p ∈ Record.phones r ∧ phone_matches line p) →
        Controller.do_search line c
        = Record.__str__ <$> AddressBook.find line (Controller.address_book c) ∧
        Record.__str__ r ∈ Controller.do_search line c).
Proof.
  unfold Controller.do_search. split.
  - intros Hnone.
    destruct (AddressBook.find line (Controller.address_book c)) as [|r l] eqn:Hf; [done|].
    assert (r ∈ AddressBook.find line (Controller.address_book c)) as Hin
      by (rewrite Hf; by left).
    apply find_elem_of in Hin as [Hr Hhits]. apply hits_pos in Hhits.
    destruct (Hnone r Hr) as [Hn Hp].
    destruct Hhits as [?|(p & ? & ?)]; [done|]. by destruct (Hp p).
  - intros r Hr Hm.
    assert (r ∈ AddressBook.find line (Controller.address_book c)) as Hin
      by (apply find_elem_of; split; [done|by apply hits_pos]).
    destruct (AddressBook.find line (Controller.address_book c)) as [|r' l];
      [by apply elem_of_nil in Hin|].
    split; [done|]. by apply list_elem_of_fmap_2.
Qed.

End search_extras.

(** ** The further properties at work

    Each property above that has a precondition, applied to the contacts
    of the examples, with the ASCII-only database and the reference
    serializer. *)

Lemma john_doe_reachable : reachable (H := ascii_unicode) john_doe.
Proof.
  apply (reach_init (py "John Doe") (Some [py "1234567890"]) (Some (py "1990-05-15"))).
  vm_compute. reflexivity.
Defined.

Lemma jane_smith_reachable : reachable (H := ascii_unicode) jane_smith.
Proof.
  apply (reach_init (py "Jane Smith") (Some [py "5555555555"; py "5554444444"]) None).
  vm_compute. reflexivity.
Defined.

Lemma add_phone_appends_witness :
  (Phone.is_valid_phone (H := ascii_unicode) (py "5555555555") = true ∧
   py "5555555555" ∉ phone_values john_doe) ∧
  ∃ r',
    Record.add_phone (H := ascii_unicode) (py "5555555555") john_doe = (Ok (), r') ∧
    Record.phones r' = [Phone.Build (py "1234567890"); Phone.Build (py "5555555555")].
Proof.
  assert (py "5555555555" ∉ phone_values john_doe) as Hnew
    by (apply (bool_decide_unpack _); vm_compute; exact I).
  split; [split; [reflexivity|exact Hnew]|].
  destruct (add_phone_appends (H := ascii_unicode) john_doe (py "5555555555")
              eq_refl Hnew) as (r' & Hcall & Hphones & _).
  exists r'. split; [exact Hcall|exact Hphones].
Defined.

Lemma add_phone_invalid_witness :
  (¬ ten_numeric (H := ascii_unicode) (py "12345")) ∧
  ∃ e,
    Record.add_phone (H := ascii_unicode) (py "12345") john_doe = (Raise e, john_doe) ∧
    kind_of e = Some InvalidValue.
Proof.
  assert (¬ ten_numeric (H := ascii_unicode) (py "12345")) as Hbad
    by (intros [Hlen _]; simpl in Hlen; lia).
  split; [exact Hbad|].
  exact (add_phone_invalid (H := ascii_unicode) john_doe (py "12345") Hbad).
Defined.

Lemma edit_phone_duplicate_witness :
  (reachable (H := ascii_unicode) jane_smith ∧
   py "5555555555" ∈ phone_values jane_smith ∧
   py "5554444444" ∈ phone_values jane_smith) ∧
  ∃ e,
    Record.edit_phone (H := ascii_unicode) (py "5555555555") (py "5554444444") jane_smith
    = (Raise e, jane_smith) ∧
    kind_of e = Some DuplicatePhone.
Proof.
  assert (py "5555555555" ∈ phone_values jane_smith) as Hold
    by (apply (bool_decide_unpack _); vm_compute; exact I).
  assert (py "5554444444" ∈ phone_values jane_smith) as Hnew
    by (apply (bool_decide_unpack _); vm_compute; exact I).
  split; [split; [exact jane_smith_reachable|split; [exact Hold|exact Hnew]]|].
  exact (edit_phone_duplicate (H := ascii_unicode) jane_smith (py "5555555555")
           (py "5554444444") jane_smith_reachable Hold Hnew).
Defined.

Lemma edit_phone_invalid_new_witness :
  (py "1234567890" ∈ phone_values john_doe ∧
   ¬ ten_numeric (H := ascii_unicode) (py "12345")) ∧
  ∃ e,
    Record.edit_phone (H := ascii_unicode) (py "1234567890") (py "12345") john_doe
    = (Raise e, john_doe) ∧
    kind_of e = Some InvalidValue.
Proof.
  assert (py "1234567890" ∈ phone_values john_doe) as Hold
    by (apply (bool_decide_unpack _); vm_compute; exact I).
  assert (¬ ten_numeric (H := ascii_unicode) (py "12345")) as Hbad
    by (intros [Hlen _]; simpl in Hlen; lia).
  split; [split; [exact Hold|exact Hbad]|].
  exact (edit_phone_invalid_new (H := ascii_unicode) john_doe (py "1234567890")
           (py "12345") Hold Hbad).
Defined.

Lemma edit_phone_round_trip_witness :
  (reachable (H := ascii_unicode) john_doe ∧
   py "1234567890" ∈ phone_values john_doe ∧
   Phone.is_valid_phone (H := ascii_unicode) (py "9999999999") = true ∧
   py "9999999999" ∉ phone_values john_doe) ∧
  ∃ r',
    Record.edit_phone (H := ascii_unicode) (py "1234567890") (py "9999999999") john_doe
    = (Ok (), r') ∧
    Record.edit_phone (H := ascii_unicode) (py "9999999999") (py "1234567890") r'
    = (Ok (), john_doe).
Proof.
  assert (py "1234567890" ∈ phone_values john_doe) as Hold
    by (apply (bool_decide_unpack _); vm_compute; exact I).
  assert (py "9999999999" ∉ phone_values john_doe) as Hnew
    by (apply (bool_decide_unpack _); vm_compute; exact I).
  split; [split; [exact john_doe_reachable|split; [exact Hold|split; [reflexivity|exact Hnew]]]|].
  exact (edit_phone_round_trip (H := ascii_unicode) john_doe (py "1234567890")
           (py "9999999999") john_doe_reachable Hold eq_refl Hnew).
Defined.

Lemma remove_phone_not_found_witness :
  (py "5555555555" ∉ phone_values john_doe) ∧
  ∃ e,
    Record.remove_phone (py "5555555555") john_doe = (Raise e, john_doe) ∧
    kind_of e = Some NotFound.
Proof.
  assert (py "5555555555" ∉ phone_values john_doe) as Habsent
    by (apply (bool_decide_unpack _); vm_compute; exact I).
  split; [exact Habsent|].
  exact (remove_phone_not_found john_doe (py "5555555555") Habsent).
Defined.

Lemma remove_phone_removes_witness :
  (reachable (H := ascii_unicode) jane_smith ∧
   py "5555555555" ∈ phone_values jane_smith) ∧
  ∃ r',
    Record.remove_phone (py "5555555555") jane_smith = (Ok (), r') ∧
    Record.find_phone (py "5555555555") r' = None ∧
    Record.find_phone (py "5554444444") r' = Some (Phone.Build (py "5554444444")).
Proof.
  assert (py "5555555555" ∈ phone_values jane_smith) as Hheld
    by (apply (bool_decide_unpack _); vm_compute; exact I).
  split; [split; [exact jane_smith_reachable|exact Hheld]|].
  destruct (remove_phone_removes (H := ascii_unicode) jane_smith (py "5555555555")
              jane_smith_reachable Hheld)
    as (r' & Hcall & _ & _ & _ & _ & Hgone & Hothers).
  exists r'. split; [exact Hcall|]. split; [exact Hgone|].
  rewrite (Hothers (py "5554444444")) by (vm_compute; discriminate).
  reflexivity.
Defined.

Lemma add_remove_round_trip_witness :
  (Phone.is_valid_phone (H := ascii_unicode) (py "5555555555") = true ∧
   py "5555555555" ∉ phone_values john_doe) ∧
  ∃ r',
    Record.add_phone (H := ascii_unicode) (py "5555555555") john_doe = (Ok (), r') ∧
    Record.remove_phone (py "5555555555") r' = (Ok (), john_doe).
Proof.
  assert (py "5555555555" ∉ phone_values john_doe) as Hnew
    by (apply (bool_decide_unpack _); vm_compute; exact I).
  split; [split; [reflexivity|exact Hnew]|].
  exact (add_remove_round_trip (H := ascii_unicode) john_doe (py "5555555555")
           eq_refl Hnew).
Defined.

Lemma phones_valid_invariant_witness :
  reachable (H := ascii_unicode) john_doe ∧
  ten_numeric (H := ascii_unicode) (py "1234567890").
Proof.
  split; [exact john_doe_reachable|].
  apply (phones_valid_invariant (H := ascii_unicode) john_doe john_doe_reachable
           (Phone.Build (py "1234567890"))).
  apply (bool_decide_unpack _). vm_compute. exact I.
Defined.

Lemma Birthday_accepts_isoformat_witness :
  datetime.valid_date (datetime.Build_date 1990 5 15) = true ∧
  Birthday.__init__ (H := ascii_unicode) (py "1990-05-15")
  = Ok (Birthday.Build (py "1990-05-15")).
Proof.
  split; [reflexivity|].
  exact (proj1 (Birthday_accepts_isoformat (H := ascii_unicode)
                  (datetime.Build_date 1990 5 15) eq_refl)).
Defined.

Lemma days_to_birthday_raises_witness :
  (Record.birthday john_doe = Some (Birthday.Build (py "1990-05-15")) ∧
   strptime (H := ascii_unicode) (py "1990-05-15")
   = Ok (datetime.Build (datetime.Build_date 1990 5 15) 0 0 0 0) ∧
   datetime.valid_date (datetime.Build_date 2026 11 3) = true ∧
   12 < 1990) ∧
  ∃ msg,
    Record.days_to_birthday (H := ascii_unicode) (datetime.Build_date 2026 11 3) john_doe
    = Raise (ValueError msg).
Proof.
  assert (strptime (H := ascii_unicode) (py "1990-05-15")
          = Ok (datetime.Build (datetime.Build_date 1990 5 15) 0 0 0 0)) as Hparse
    by (vm_compute; reflexivity).
  assert (12 < 1990) as Hyear by reflexivity.
  split; [split; [reflexivity|split; [exact Hparse|split; [reflexivity|exact Hyear]]]|].
  exact (days_to_birthday_raises (H := ascii_unicode) (datetime.Build_date 2026 11 3)
           john_doe (Birthday.Build (py "1990-05-15"))
           (datetime.Build (datetime.Build_date 1990 5 15) 0 0 0 0)
           eq_refl Hparse eq_refl (or_introl Hyear)).
Defined.

Lemma days_to_birthday_small_year_witness :
  (strptime (H := ascii_unicode) (py "0005-03-15")
   = Ok (datetime.Build (datetime.Build_date 5 3 15) 0 0 0 0) ∧
   datetime.valid_date (datetime.Build_date 2026 11 3) = true ∧
   2026 < 9999 ∧ 5 ≤ 12 ∧ 15 ≤ 23) ∧
  ∃ next n,
    Record.days_to_birthday (H := ascii_unicode) (datetime.Build_date 2026 11 3)
      (Record.Build (Name.Build (py "Bede")) [] (Some (Birthday.Build (py "0005-03-15"))))
    = Ok (Some n) ∧
    n = datetime.days_between next (datetime.Build_date 2026 11 3) ∧
    datetime.month next = 5 ∧ datetime.day next = 3.
Proof.
  assert (strptime (H := ascii_unicode) (py "0005-03-15")
          = Ok (datetime.Build (datetime.Build_date 5 3 15) 0 0 0 0)) as Hparse
    by (vm_compute; reflexivity).
  assert (2026 < 9999) as Hmax by reflexivity.
  assert (5 ≤ 12) as Hyear by discriminate.
  assert (15 ≤ 23) as Hday by discriminate.
  split; [split; [exact Hparse|split; [reflexivity|split; [exact Hmax|split;
            [exact Hyear|exact Hday]]]]|].
  destruct (days_to_birthday_small_year (H := ascii_unicode)
              (datetime.Build_date 2026 11 3)
              (Record.Build (Name.Build (py "Bede")) []
                 (Some (Birthday.Build (py "0005-03-15"))))
              (Birthday.Build (py "0005-03-15"))
              (datetime.Build (datetime.Build_date 5 3 15) 0 0 0 0)
              eq_refl Hparse eq_refl Hmax Hyear Hday)
    as (next & n & Hcall & Hn & _ & _ & Hmonth & Hdayn & _).
  exists next, n. split; [exact Hcall|]. split; [exact Hn|].
  split; [exact Hmonth|exact Hdayn].
Defined.

Lemma add_delete_round_trip_witness :
  (py "John Doe" ∉ dict_keys (AddressBook.data empty_book)) ∧
  AddressBook.data
    (AddressBook.delete (py "John Doe") (AddressBook.add_record john_doe empty_book))
  = [].
Proof.
  assert (Name.value (Record.name john_doe) ∉ dict_keys (AddressBook.data empty_book))
    as Hnew by (apply (bool_decide_unpack _); vm_compute; exact I).
  split; [exact Hnew|].
  exact (proj1 (add_delete_round_trip john_doe empty_book Hnew)).
Defined.

Lemma book_invariants_witness :
  book_reachable
    (AddressBook.delete (py "John Doe")
       (AddressBook.add_record jane_smith (AddressBook.add_record john_doe empty_book))) ∧
  NoDup (dict_keys (AddressBook.data
    (AddressBook.delete (py "John Doe")
       (AddressBook.add_record jane_smith (AddressBook.add_record john_doe empty_book))))) ∧
  Z.of_nat (length (AddressBook.data
    (AddressBook.delete (py "John Doe")
       (AddressBook.add_record jane_smith (AddressBook.add_record john_doe empty_book)))))
  < AddressBook.record_id
      (AddressBook.delete (py "John Doe")
         (AddressBook.add_record jane_smith (AddressBook.add_record john_doe empty_book))).
Proof.
  assert (book_reachable
            (AddressBook.delete (py "John Doe")
               (AddressBook.add_record jane_smith
                  (AddressBook.add_record john_doe empty_book)))) as Hreach
    by (apply book_delete, book_add_record, book_add_record, book_empty).
  split; [exact Hreach|].
  destruct (book_invariants _ Hreach) as (Hkeys & _ & Hid).
  split; [exact Hkeys|exact Hid].
Defined.

Lemma find_by_name_or_phone_witness :
  (jane_smith ∈ dict_values
     (AddressBook.data (AddressBook.add_record jane_smith empty_book))) ∧
  jane_smith ∈ AddressBook.find (H := ascii_unicode) (py "JANE SMITH")
                 (AddressBook.add_record jane_smith empty_book) ∧
  jane_smith ∈ AddressBook.find (H := ascii_unicode) (py "5554444444")
                 (AddressBook.add_record jane_smith empty_book).
Proof.
  assert (jane_smith ∈ dict_values
            (AddressBook.data (AddressBook.add_record jane_smith empty_book))) as Hin
    by (vm_compute; constructor).
  split; [exact Hin|].
  destruct (find_by_name_or_phone (H := ascii_unicode)
              (AddressBook.add_record jane_smith empty_book) jane_smith Hin)
    as [Hname Hphone].
  split.
  - apply (Hname (py "JANE SMITH")). vm_compute. reflexivity.
  - apply (Hphone (Phone.Build (py "5554444444"))). vm_compute. right. constructor.
Defined.


